(** * Stop-loss bot: trigger calculator, liquidation executor, monitoring loop

    A shallow embedding of [bot/position.py], [bot/trading.py] and
    [bot/monitor.py].

    Modelling conventions.
    - In the executor and the monitoring loop, Python [float] prices, sizes
      and percentages are exact rationals [Q] with the boolean comparisons
      of [Q]: what is proved there holds for what the arithmetic returns,
      read as exact.  The trigger calculator is given a second time on
      binary64 values, operation by operation as Python rounds them
      ([Binary64.calculate_stop_loss_trigger]); the statements about its
      own arithmetic are made on that one.
    - A venue response ([Dict[str, Any]]) is a [gmap string PyVal]; [d.get(k)]
      is [dict_get d k].
    - Exceptions are values [Exn] (class and message); a call that may raise
      returns an [Outcome].
    - The outside world (venue, network) is a state [W] threaded through the
      calls, with the calls themselves given by a [Venue] record.  Every
      observable effect (venue call, notification, ledger write, sleep) is
      recorded, in order, as an [Event]. *)

From Stdlib Require Import ZArith QArith Qround Qminmax String Ascii List Bool Lia Lqa.
From Stdlib Require Import DecimalString Floats.
From stdpp Require Import gmap strings.
From Equations Require Import Equations.
Import ListNotations.
Open Scope string_scope.
Open Scope list_scope.

(* ===================================================================== *)
(** * Part I: definitions                                                 *)
(* ===================================================================== *)

(** ** Python values and dictionaries *)

Inductive PyVal : Type :=
| PNone
| PBool (b : bool)
| PInt (n : Z)
| PStr (s : string).

(** Truth value of a Python object ([bool(v)]). *)
Definition truthy (v : PyVal) : bool :=
  match v with
  | PNone => false
  | PBool b => b
  | PInt n => negb (n =? 0)%Z
  | PStr s => negb (String.eqb s "")
  end.

(** [a or b]. *)
Definition py_or (a b : PyVal) : PyVal := if truthy a then a else b.

(** [v is None], [v is False]. *)
Definition is_None (v : PyVal) : bool :=
  match v with PNone => true | _ => false end.

Definition is_False (v : PyVal) : bool :=
  match v with PBool false => true | _ => false end.

(** [str(v)], as used inside an f-string. *)
Definition py_str (v : PyVal) : string :=
  match v with
  | PNone => "None"
  | PBool true => "True"
  | PBool false => "False"
  | PInt n => NilZero.string_of_int (Z.to_int n)
  | PStr s => s
  end.

(** [d.get(k)] and [d.get(k, dflt)]. *)
Definition dict_get (d : gmap string PyVal) (k : string) : PyVal :=
  default PNone (d !! k).

Definition dict_get_or (d : gmap string PyVal) (k : string) (dflt : PyVal) : PyVal :=
  default dflt (d !! k).

(** ** Strings: [needle in hay] and [s.lower()] *)

Fixpoint contains (needle hay : string) : bool :=
  String.prefix needle hay ||
  match hay with
  | EmptyString => false
  | String _ rest => contains needle rest
  end.

Definition lower_ascii (c : ascii) : ascii :=
  let n := nat_of_ascii c in
  if (65 <=? n)%nat && (n <=? 90)%nat then ascii_of_nat (n + 32) else c.

Fixpoint lower (s : string) : string :=
  match s with
  | EmptyString => EmptyString
  | String c rest => String (lower_ascii c) (lower rest)
  end.

(** ** Exceptions *)

(** The exception classes the monitoring loop tells apart.  [Timeout] is the
    [requests] subclass of [RequestException]; [KeyboardInterrupt] is not an
    [Exception]. *)
Inductive ExnClass : Type :=
| Timeout
| RequestException
| KeyboardInterrupt
| OtherException.

Record Exn : Type := mkExn { exn_class : ExnClass; exn_msg : string }.

Inductive Outcome (A : Type) : Type :=
| Returns (a : A)
| Raises (e : Exn).
Arguments Returns {A} a.
Arguments Raises {A} e.

(** ** Rationals: comparisons and [round(x, 2)] *)

Definition Qgt_bool (a b : Q) : bool := negb (Qle_bool a b).

(** Round-half-even to the nearest integer. *)
Definition round_half_even (q : Q) : Z :=
  let fl := Qfloor q in
  match (q - inject_Z fl ?= 1 # 2)%Q with
  | Lt => fl
  | Gt => (fl + 1)%Z
  | Eq => if Z.even fl then fl else (fl + 1)%Z
  end.

(** [round(x, 2)]: the nearest multiple of 1/100, ties to the even one
    (on rationals a tie is exact). *)
Definition py_round2 (x : Q) : Q :=
  (inject_Z (round_half_even (x * 100)) / 100)%Q.

(** ** position.py *)

(** [calculate_stop_loss_trigger(entry_price, current_price, stop_loss_pct)]. *)
Definition calculate_stop_loss_trigger
    (entry_price current_price stop_loss_pct : Q) : bool * Q :=
  if Qle_bool entry_price 0 then (false, 0%Q)
  else
    let price_drop_pct := (((entry_price - current_price) / entry_price) * 100)%Q in
    let should_trigger := Qle_bool stop_loss_pct price_drop_pct in
    (should_trigger, price_drop_pct).

(** The same function on binary64 values: every subtraction, division,
    multiplication and comparison is the IEEE 754 one that Python's [float]
    performs, NaN and infinities included.  [price_drop_pct >= stop_loss_pct]
    is [stop_loss_pct <= price_drop_pct]. *)
Module Binary64.

Definition calculate_stop_loss_trigger
    (entry_price current_price stop_loss_pct : float) : bool * float :=
  if (entry_price <=? 0)%float then (false, 0%float)
  else
    let price_drop_pct :=
      (((entry_price - current_price) / entry_price) * 100)%float in
    let should_trigger := (stop_loss_pct <=? price_drop_pct)%float in
    (should_trigger, price_drop_pct).

End Binary64.

(** A position record of the venue's JSON array; the fields are the keys
    [asset], [avgPrice], [curPrice], [size], [title], [outcome] after the
    [.get] defaults and [float] conversions of the loop. *)
Record Position : Type := mkPosition {
  pos_asset : string;
  pos_avgPrice : Q;
  pos_curPrice : Q;
  pos_size : Q;
  pos_title : string;
  pos_outcome : string
}.

(** ** Events *)

Inductive Event : Type :=
(* trading.py *)
| EvClosing (token_id : string) (size : Q) (signature_type : Z)
| EvDeriveCreds (signature_type : Z)
| EvPostOrder (signature_type : Z) (token_id : string) (amount : Q)
(* monitor.py *)
| EvNotifyNewPosition (title outcome : string) (entry_price size stop_loss_pct : Q)
| EvNotifyPositionClosed (title outcome : string) (entry_price last_price size : Q)
                         (reason : string)
| EvLogTrade (title token_id outcome : string) (entry_price exit_price shares loss : Q)
             (order_id : PyVal) (status : string)
| EvNotifyStopLoss (title outcome : string) (entry_price exit_price loss shares : Q)
                   (order_id : PyVal) (success : bool)
| EvNotifyError (message : string)
| EvSendTelegram (message : string)
| EvSleep (seconds : Q).

(** ** The outside world *)

(** [get_positions]: the snapshot fetch of position.py.
    [get_clob_client]: building a fresh trading client for a signature type
    (reads the credentials, calls [create_or_derive_api_creds]); [Some e]
    when it raises.
    [submit_order]: [create_market_order] followed by [post_order] under the
    client of that signature type. *)
Record Venue (W : Type) : Type := mkVenue {
  get_positions : W -> W * Outcome (list Position);
  get_clob_client : Z -> W -> W * option Exn;
  submit_order : Z -> string -> Q -> W -> W * Outcome (gmap string PyVal)
}.
Arguments get_positions {W} _ _.
Arguments get_clob_client {W} _ _ _.
Arguments submit_order {W} _ _ _ _ _.

(** ** trading.py *)

(** The failure classes of the [except Exception] block of [close_position],
    in the order the handler tests them. *)
Inductive ErrorClass : Type :=
| NotCaught
| NoOrderbook
| InvalidSignature
| AuthFailed
| Unknown.

Definition classify_error (e : Exn) : ErrorClass :=
  match exn_class e with
  | KeyboardInterrupt => NotCaught
  | _ =>
    let error_msg := exn_msg e in
    if contains "No orderbook exists" error_msg || contains "404" error_msg
    then NoOrderbook
    else if contains "invalid signature" (lower error_msg)
    then InvalidSignature
    else if contains "401" error_msg || contains "Unauthorized" error_msg
            || contains "Invalid api key" error_msg
    then AuthFailed
    else Unknown
  end.

(** [{"success": False, "error": msg}]. *)
Definition failure (msg : string) : gmap string PyVal :=
  <["success" := PBool false]> (<["error" := PStr msg]> ∅).

(** Number of escalation hops still ahead of a signature type. *)
Definition hops_left (signature_type : Z) : nat :=
  if (signature_type =? 1)%Z then 2
  else if (signature_type =? 0)%Z then 1
  else 0.

(** The result [r] of a nested call, with the caller's own events [pre]
    in front of the callee's. *)
Definition after {W A : Type} (pre : list Event) (r : W * list Event * A)
  : W * list Event * A :=
  let '(w, evs, a) := r in (w, (pre ++ evs), a).

Section Executor.
Context {W : Type}.
Variable venue : Venue W.

(** [close_position(token_id, size, signature_type)]: the world after the
    call, the events of the call, and what the call returns or raises. *)
Equations close_position (token_id : string) (size : Q) (signature_type : Z) (w : W)
  : W * list Event * Outcome (gmap string PyVal)
  by wf (hops_left signature_type) lt :=
close_position token_id size signature_type w
  with get_clob_client venue signature_type w => {
  | (w1, Some e) =>
      (w1, [EvClosing token_id size signature_type; EvDeriveCreds signature_type],
       Raises e)
  | (w1, None) with Qle_bool (py_round2 size) 0 => {
    | true =>
        (w1, [EvClosing token_id size signature_type; EvDeriveCreds signature_type],
         Returns (failure "Size too small"))
    | false with submit_order venue signature_type token_id (py_round2 size) w1 => {
      | (w2, Returns response) =>
          (w2, [EvClosing token_id size signature_type; EvDeriveCreds signature_type;
                EvPostOrder signature_type token_id (py_round2 size)],
           Returns response)
      | (w2, Raises e) with classify_error e => {
        | NotCaught =>
            (w2, [EvClosing token_id size signature_type; EvDeriveCreds signature_type;
                  EvPostOrder signature_type token_id (py_round2 size)],
             Raises e)
        | NoOrderbook =>
            (w2, [EvClosing token_id size signature_type; EvDeriveCreds signature_type;
                  EvPostOrder signature_type token_id (py_round2 size)],
             Returns (failure "No active orderbook for this market"))
        | InvalidSignature with Z.eq_dec signature_type 1%Z => {
          | left _ =>
              after [EvClosing token_id size signature_type;
                     EvDeriveCreds signature_type;
                     EvPostOrder signature_type token_id (py_round2 size)]
                    (close_position token_id size 0%Z w2)
          | right _ with Z.eq_dec signature_type 0%Z => {
            | left _ =>
                after [EvClosing token_id size signature_type;
                       EvDeriveCreds signature_type;
                       EvPostOrder signature_type token_id (py_round2 size)]
                      (close_position token_id size 2%Z w2)
            | right _ =>
                (w2, [EvClosing token_id size signature_type;
                      EvDeriveCreds signature_type;
                      EvPostOrder signature_type token_id (py_round2 size)],
                 Returns (failure ("Signature failed: " +:+ exn_msg e))) } }
        | AuthFailed =>
            (w2, [EvClosing token_id size signature_type; EvDeriveCreds signature_type;
                  EvPostOrder signature_type token_id (py_round2 size)],
             Returns (failure ("Authentication failed: " +:+ exn_msg e)))
        | Unknown =>
            (w2, [EvClosing token_id size signature_type; EvDeriveCreds signature_type;
                  EvPostOrder signature_type token_id (py_round2 size)],
             Raises e) } } } }.

(** The default entry point, [close_position(token_id, size)]:
    [signature_type: int = 2]. *)
Definition default_signature_type : Z := 2%Z.

Definition close_position_default (token_id : string) (size : Q) (w : W)
  : W * list Event * Outcome (gmap string PyVal) :=
  close_position token_id size default_signature_type w.

End Executor.

(** ** monitor.py *)

Definition MAX_RETRIES : nat := 3.
Definition RETRY_DELAY : Q := 5.

(** The configuration values read by [run_monitor]: the stop-loss percentage
    and the poll interval in seconds. *)
Record Config : Type := mkConfig {
  stop_loss_pct : Q;
  poll_interval : Q
}.

(** The [tracked_position] dictionary when it is not empty: all six keys are
    written together. *)
Record Tracked : Type := mkTracked {
  tp_title : string;
  tp_outcome : string;
  tp_entry_price : Q;
  tp_last_price : Q;
  tp_size : Q;
  tp_token_id : string
}.

(** The local variables of the [while True] loop; [tracked_position = None]
    stands for the empty dictionary. *)
Record LoopState : Type := mkState {
  consecutive_errors : nat;
  current_position_id : option string;
  tracked_position : option Tracked
}.

Definition initial_state : LoopState := mkState 0 None None.

(** [cur_price > 0 and entry > 0]. *)
Definition is_active (pos : Position) : bool :=
  Qgt_bool (pos_curPrice pos) 0 && Qgt_bool (pos_avgPrice pos) 0.

(** The [for pos in positions] search with its [break]. *)
Fixpoint find_active (positions : list Position) : option Position :=
  match positions with
  | [] => None
  | pos :: rest => if is_active pos then Some pos else find_active rest
  end.

(** [token_id != current_position_id], a [str] against an [Optional[str]]. *)
Definition differs (token_id : string) (current : option string) : bool :=
  match current with
  | None => true
  | Some id => negb (String.eqb token_id id)
  end.

(** The tracker's view of a snapshot: which branch of the loop body
    (the [if not positions], the [if active_pos is None], the
    [if token_id != current_position_id]) a cycle takes. *)
Inductive Classification : Type :=
| NoPositions
| NoValidPosition
| NewPosition (pos : Position)
| SamePosition (pos : Position).

Definition classify (positions : list Position) (previously_tracked : option string)
  : Classification :=
  match positions with
  | [] => NoPositions
  | _ :: _ =>
    match find_active positions with
    | None => NoValidPosition
    | Some pos =>
      if differs (pos_asset pos) previously_tracked then NewPosition pos
      else SamePosition pos
    end
  end.

(** [if tracked_position: notify_position_closed(...)]. *)
Definition notify_closed (tracked : option Tracked) (reason : string) : list Event :=
  match tracked with
  | Some t =>
      [EvNotifyPositionClosed (tp_title t) (tp_outcome t) (tp_entry_price t)
                              (tp_last_price t) (tp_size t) reason]
  | None => []
  end.

(** [result.get("orderID") or result.get("order_id")]. *)
Definition order_id_of (result : gmap string PyVal) : PyVal :=
  py_or (dict_get result "orderID") (dict_get result "order_id").

(** The [success] flag the loop computes from the executor's result. *)
Definition report_success (result : gmap string PyVal) : bool :=
  if is_False (dict_get result "success") then false
  else negb (is_None (order_id_of result)).

(** [min(RETRY_DELAY * consecutive_errors, 60)]. *)
Definition backoff (n : nat) : Q :=
  Qmin (RETRY_DELAY * inject_Z (Z.of_nat n)) 60.

Section Monitor.
Context {W : Type}.
Variable venue : Venue W.
Variable cfg : Config.

(** What one pass through the loop body leaves behind: the loop variables,
    the world, the events in order, the exception an [except] clause caught
    (if any), and whether the loop hit [break]. *)
Record CycleResult : Type := mkCycle {
  next_state : LoopState;
  next_world : W;
  emitted : list Event;
  caught : option Exn;
  stopped : bool
}.

(** The four [except] clauses, entered with the loop variables [s] as they
    were when the exception was raised and the events [pre] emitted so far. *)
Definition handle (s : LoopState) (w : W) (pre : list Event) (e : Exn) : CycleResult :=
  match exn_class e with
  | Timeout =>
      let n := S (consecutive_errors s) in
      mkCycle (mkState n (current_position_id s) (tracked_position s)) w
              (pre ++ [EvSleep (backoff n)]) (Some e) false
  | RequestException =>
      let n := S (consecutive_errors s) in
      mkCycle (mkState n (current_position_id s) (tracked_position s)) w
              (pre ++ (if (MAX_RETRIES <=? n)%nat
                       then [EvNotifyError ("Network issues: " +:+ exn_msg e)]
                       else [])
                   ++ [EvSleep (backoff n)])
              (Some e) false
  | KeyboardInterrupt =>
      mkCycle s w (pre ++ [EvSendTelegram "Polymarket SL Bot stopped by user."])
              (Some e) true
  | OtherException =>
      mkCycle s w (pre ++ [EvNotifyError (exn_msg e); EvSleep (poll_interval cfg)])
              (Some e) false
  end.

(** One pass through the body of [while True]. *)
Definition cycle (s : LoopState) (w : W) : CycleResult :=
  match get_positions venue w with
  | (w1, Raises e) => handle s w1 [] e
  | (w1, Returns positions) =>
    match positions with
    | [] =>
      match current_position_id s with
      | Some _ =>
          mkCycle (mkState 0 None None) w1
                  (notify_closed (tracked_position s) "Position Closed"
                   ++ [EvSleep (poll_interval cfg)])
                  None false
      | None =>
          mkCycle (mkState 0 None (tracked_position s)) w1
                  [EvSleep (poll_interval cfg)] None false
      end
    | _ :: _ =>
      match find_active positions with
      | None =>
        match current_position_id s with
        | Some _ =>
            mkCycle (mkState (consecutive_errors s) None None) w1
                    (notify_closed (tracked_position s) "Market Resolved"
                     ++ [EvSleep (poll_interval cfg)])
                    None false
        | None => mkCycle s w1 [EvSleep (poll_interval cfg)] None false
        end
      | Some pos =>
        let entry_price := pos_avgPrice pos in
        let current_price := pos_curPrice pos in
        let size := pos_size pos in
        let token_id := pos_asset pos in
        let title := pos_title pos in
        let outcome := pos_outcome pos in
        let tracked :=
          Some (mkTracked title outcome entry_price current_price size token_id) in
        let is_new := differs token_id (current_position_id s) in
        let ev_new :=
          if is_new
          then [EvNotifyNewPosition title outcome entry_price size (stop_loss_pct cfg)]
          else [] in
        let position_id :=
          if is_new then Some token_id else current_position_id s in
        let '(should_trigger, price_drop_pct) :=
          calculate_stop_loss_trigger entry_price current_price (stop_loss_pct cfg) in
        if should_trigger then
          match close_position_default venue token_id size w1 with
          | (w2, evs, Raises e) =>
              handle (mkState (consecutive_errors s) position_id tracked) w2
                     (ev_new ++ evs) e
          | (w2, evs, Returns result) =>
            let order_id := order_id_of result in
            let success := report_success result in
            let status := if success then "SUCCESS" else "FAILED" in
            let ev_report :=
              [EvLogTrade title token_id outcome entry_price current_price size
                          price_drop_pct order_id status;
               EvNotifyStopLoss title outcome entry_price current_price
                                price_drop_pct size order_id success] in
            if success then
              mkCycle (mkState 0 None tracked) w2
                      (ev_new ++ evs ++ ev_report ++ [EvSleep (poll_interval cfg)])
                      None false
            else
              mkCycle (mkState 0 position_id tracked) w2
                      (ev_new ++ evs ++ ev_report
                       ++ [EvNotifyError
                             ("Failed to close position: "
                              +:+ py_str (dict_get_or result "error"
                                                     (PStr "Unknown error")));
                           EvSleep (poll_interval cfg)])
                      None false
          end
        else
          mkCycle (mkState 0 position_id tracked) w1
                  (ev_new ++ [EvSleep (poll_interval cfg)]) None false
      end
    end
  end.

(** The first [n] passes of the loop (fewer if it breaks): final loop
    variables and world, all events in order, and whether it broke. *)
Fixpoint run (n : nat) (s : LoopState) (w : W) : LoopState * W * list Event * bool :=
  match n with
  | O => (s, w, [], false)
  | S k =>
    let r := cycle s w in
    if stopped r then (next_state r, next_world r, emitted r, true)
    else
      let '(s', w', evs, b) := run k (next_state r) (next_world r) in
      (s', w', (emitted r ++ evs), b)
  end.

(** The loop variables and worlds the loop can be in at the top of a pass. *)
Inductive Reachable : LoopState -> W -> Prop :=
| reach_start (w : W) : Reachable initial_state w
| reach_cycle (s : LoopState) (w : W) :
    Reachable s w ->
    stopped (cycle s w) = false ->
    Reachable (next_state (cycle s w)) (next_world (cycle s w)).

End Monitor.

Arguments next_state {W} _.
Arguments next_world {W} _.
Arguments emitted {W} _.
Arguments caught {W} _.
Arguments stopped {W} _.

(** ** Observations on event lists *)

Fixpoint count (f : Event -> bool) (evs : list Event) : nat :=
  match evs with
  | [] => 0
  | e :: rest => (if f e then 1 else 0) + count f rest
  end.

Definition is_post_order (e : Event) : bool :=
  match e with EvPostOrder _ _ _ => true | _ => false end.

Definition is_venue_call (e : Event) : bool :=
  match e with EvDeriveCreds _ | EvPostOrder _ _ _ => true | _ => false end.

Definition is_closing (e : Event) : bool :=
  match e with EvClosing _ _ _ => true | _ => false end.

Definition is_notify_error (e : Event) : bool :=
  match e with EvNotifyError _ => true | _ => false end.

Definition is_notify_new (e : Event) : bool :=
  match e with EvNotifyNewPosition _ _ _ _ _ => true | _ => false end.

Definition is_notify_closed (e : Event) : bool :=
  match e with EvNotifyPositionClosed _ _ _ _ _ _ => true | _ => false end.

(** The signature types of the order submissions of a call, in order. *)
Fixpoint methods_tried (evs : list Event) : list Z :=
  match evs with
  | [] => []
  | EvPostOrder signature_type _ _ :: rest => signature_type :: methods_tried rest
  | _ :: rest => methods_tried rest
  end.

(** The signature types [close_position] submits under, in order, when every
    submission is rejected for its signature: the [if]/[elif]/[else] of the
    handler read as a successor relation. *)
Definition escalation_chain (signature_type : Z) : list Z :=
  if (signature_type =? 1)%Z then [1; 0; 2]%Z
  else if (signature_type =? 0)%Z then [0; 2]%Z
  else [signature_type].

(** ** The tracker's rule in the spec's words *)

(** A position is valid for monitoring when both prices are positive. *)
Definition valid (pos : Position) : Prop :=
  (0 < pos_curPrice pos)%Q /\ (0 < pos_avgPrice pos)%Q.

Definition invalid (pos : Position) : Prop :=
  (pos_curPrice pos <= 0)%Q \/ (pos_avgPrice pos <= 0)%Q.

(** [pos] is the first valid entry of the snapshot, in the venue's order. *)
Definition first_valid (positions : list Position) (pos : Position) : Prop :=
  exists before rest,
    positions = before ++ pos :: rest /\ Forall invalid before /\ valid pos.

(** ** Loop-level notions *)

(** The snapshot the loop remembers of a selected position. *)
Definition snapshot_of (pos : Position) : Tracked :=
  mkTracked (pos_title pos) (pos_outcome pos) (pos_avgPrice pos) (pos_curPrice pos)
            (pos_size pos) (pos_asset pos).

(** While an identifier is tracked, the remembered snapshot is that of the
    tracked position. *)
Definition tracking_invariant (s : LoopState) : Prop :=
  forall id, current_position_id s = Some id ->
    exists t, tracked_position s = Some t /\ tp_token_id t = id.


(** The next [n] snapshot fetches all return the snapshot [positions]. *)
Fixpoint fetch_serves {W : Type} (venue : Venue W) (positions : list Position)
    (n : nat) (w : W) : Prop :=
  match n with
  | O => True
  | S k =>
    (get_positions venue w).2 = Returns positions
    /\ fetch_serves venue positions k (get_positions venue w).1
  end.

(** ** The outcome rule in the spec's words *)



(** ** Concrete venues and snapshots used in examples *)

Definition position_A : Position :=
  mkPosition "A" (65 # 100) (55 # 100) 10 "Market A" "YES".

Definition filled : gmap string PyVal :=
  <["orderID" := PStr "0xabc"]> (<["success" := PBool true]> ∅).

(** A venue that holds [position_A], builds clients, and fills every order. *)
Definition quiet_venue : Venue unit :=
  mkVenue unit
    (fun w => (w, Returns [position_A]))
    (fun _ w => (w, None))
    (fun _ _ _ w => (w, Returns filled)).

(** A venue that rejects the signature of every order. *)
Definition rejecting_venue : Venue unit :=
  mkVenue unit
    (fun w => (w, Returns [position_A]))
    (fun _ w => (w, None))
    (fun _ _ _ w => (w, Raises (mkExn OtherException "invalid signature"))).

(** A venue that cannot be reached at all. *)
Definition offline_venue : Venue unit :=
  mkVenue unit
    (fun w => (w, Raises (mkExn RequestException "connection refused")))
    (fun _ w => (w, Some (mkExn RequestException "connection refused")))
    (fun _ _ _ w => (w, Raises (mkExn RequestException "connection refused"))).

Definition position_B : Position :=
  mkPosition "B" (1 # 2) (1 # 2) 10 "Market B" "NO".

(** A venue whose successive snapshots are [[]], [[position_B]], [[]], ...;
    the world counts the fetches. *)
Definition scenario_venue : Venue nat :=
  mkVenue nat
    (fun w => (S w, Returns (match w with 1 => [position_B] | _ => [] end)))
    (fun _ w => (w, None))
    (fun _ _ _ w => (w, Returns filled)).

Definition cfg10 : Config := mkConfig 10 30.


(** ** More observations on event lists *)

(** The orders submitted, in order: signature type, token and amount. *)
Fixpoint orders (evs : list Event) : list (Z * string * Q) :=
  match evs with
  | [] => []
  | EvPostOrder signature_type token_id amount :: rest =>
      (signature_type, token_id, amount) :: orders rest
  | _ :: rest => orders rest
  end.

(** A venue that holds [position_A] and answers every order with a "404". *)
Definition no_orderbook_venue : Venue unit :=
  mkVenue unit
    (fun w => (w, Returns [position_A]))
    (fun _ w => (w, None))
    (fun _ _ _ w => (w, Raises (mkExn OtherException "404: invalid signature"))).

(** ** notifications.py *)

Definition nl : string := String (ascii_of_nat 10) EmptyString.

(** What [requests.post] does, as the [try] of [send_telegram] tells it
    apart: a response (with its [ok] flag and text), a [RequestException]
    (timeouts included), a [ValueError], or any other exception. *)
Inductive PostResult : Type :=
| PostResponse (ok : bool) (text : string)
| PostRequestException (msg : string)
| PostValueError (msg : string)
| PostOtherError (e : Exn).

Inductive HttpEvent : Type :=
| EvHttpPost (url : string) (chat_id : Z) (text : string).

(** What [send_telegram] reads: the [telegram] section of the configuration
    ([config.get("telegram", {})]) and the two environment variables. *)
Record Telegram : Type := mkTelegram {
  telegram_config : gmap string PyVal;
  TELEGRAM_BOT_TOKEN : option string;
  TELEGRAM_CHAT_ID : option string
}.

(** Truth value of what [os.getenv] returned. *)
Definition env_set (value : option string) : bool :=
  match value with
  | Some s => negb (String.eqb s "")
  | None => false
  end.

(** [TELEGRAM_API_URL.format(token=token)]. *)
Definition TELEGRAM_API_URL (token : string) : string :=
  "https://api.telegram.org/bot" +:+ token +:+ "/sendMessage".

(** The P/L percentage of [notify_position_closed]. *)
Definition pnl_pct (entry_price last_price : Q) : Q :=
  if Qgt_bool entry_price 0
  then (((last_price - entry_price) / entry_price) * 100)%Q
  else 0%Q.

(** The [(status_emoji, result)] of [notify_position_closed]. *)
Definition closed_status (last_price pnl : Q) : string * string :=
  if Qle_bool 1 last_price then ("🎉", "WON")
  else if Qle_bool last_price 0 then ("📉", "LOST")
  else if Qle_bool 0 pnl then ("✅", "PROFIT")
  else ("📊", "CLOSED").

Definition pnl_sign (pnl : Q) : string :=
  if Qle_bool 0 pnl then "+" else "".

(** A call whose result is dropped: only a raise gets through. *)
Definition discard {W E A : Type} (r : W * list E * Outcome A)
  : W * list E * Outcome unit :=
  let '(w, evs, out) := r in
  (w, evs, match out with Returns _ => Returns tt | Raises e => Raises e end).

Section Notifications.
Context {W : Type}.

(** [int(s)] on a string: [None] for a [ValueError]. *)
Variable py_int : string -> option Z.

(** [requests.post(url, json={"chat_id": ..., "text": ..., "parse_mode":
    "HTML"}, timeout=10)]. *)
Variable requests_post : string -> Z -> string -> W -> W * PostResult.

(** [f"{x:.nf}"]. *)
Variable fmt : nat -> Q -> string.

(** [send_telegram(message)]. *)
Definition send_telegram (tg : Telegram) (message : string) (w : W)
  : W * list HttpEvent * Outcome bool :=
  if negb (truthy (dict_get_or (telegram_config tg) "enabled" (PBool true)))
  then (w, [], Returns false)
  else if negb (env_set (TELEGRAM_BOT_TOKEN tg)) || negb (env_set (TELEGRAM_CHAT_ID tg))
  then (w, [], Returns false)
  else
    let url := TELEGRAM_API_URL (default "" (TELEGRAM_BOT_TOKEN tg)) in
    match py_int (default "" (TELEGRAM_CHAT_ID tg)) with
    | None => (w, [], Returns false)
    | Some chat_id =>
      match requests_post url chat_id message w with
      | (w1, PostResponse ok _) => (w1, [EvHttpPost url chat_id message], Returns ok)
      | (w1, PostRequestException _) =>
          (w1, [EvHttpPost url chat_id message], Returns false)
      | (w1, PostValueError _) =>
          (w1, [EvHttpPost url chat_id message], Returns false)
      | (w1, PostOtherError e) => (w1, [EvHttpPost url chat_id message], Raises e)
      end
    end.

(** [notify_error(error_message)]. *)
Definition notify_error (tg : Telegram) (error_message : string) (w : W)
  : W * list HttpEvent * Outcome unit :=
  if truthy (dict_get_or (telegram_config tg) "notify_on_error" (PBool true))
  then discard (send_telegram tg ("<b>Bot Error:</b> " +:+ error_message) w)
  else (w, [], Returns tt).

(** [notify_position_closed(title, outcome, entry_price, last_price, size,
    reason)]. *)
Definition notify_position_closed (tg : Telegram) (title outcome : string)
    (entry_price last_price size : Q) (reason : string) (w : W)
  : W * list HttpEvent * Outcome unit :=
  if negb (truthy (dict_get_or (telegram_config tg) "enabled" (PBool true)))
  then (w, [], Returns tt)
  else
    let pnl := pnl_pct entry_price last_price in
    let '(status_emoji, result) := closed_status last_price pnl in
    let msg :=
      "<b>" +:+ status_emoji +:+ " POSITION " +:+ result +:+ "</b>" +:+ nl +:+ nl
      +:+ "<b>Market:</b> " +:+ title +:+ nl
      +:+ "<b>Outcome:</b> " +:+ outcome +:+ nl
      +:+ "<b>Entry Price:</b> $" +:+ fmt 4 entry_price +:+ nl
      +:+ "<b>Final Price:</b> $" +:+ fmt 4 last_price +:+ nl
      +:+ "<b>P/L:</b> " +:+ pnl_sign pnl +:+ fmt 2 pnl +:+ "%" +:+ nl
      +:+ "<b>Shares:</b> " +:+ fmt 2 size +:+ nl
      +:+ "<b>Reason:</b> " +:+ reason in
    discard (send_telegram tg msg w).

End Notifications.

(** A configured chat: everything enabled, token and chat id set. *)
Definition telegram_on : Telegram :=
  mkTelegram ∅ (Some "123:abc") (Some "42").

(** The same with notifications switched off. *)
Definition telegram_off : Telegram :=
  mkTelegram (<["enabled" := PBool false]> ∅) (Some "123:abc") (Some "42").

(** A chat id parser for the examples: it knows "42" only. *)
Definition int_42 (s : string) : option Z :=
  if String.eqb s "42" then Some 42%Z else None.

(** A chat endpoint that accepts every message. *)
Definition accepting_post (url : string) (chat_id : Z) (text : string) (w : unit)
  : unit * PostResult :=
  (w, PostResponse true "").

(** ** config.py *)

(** Configuration values: scalars and nested sections (dictionaries).  YAML
    sequences do not occur in this bot's configuration and are left out. *)
Inductive Scalar : Type :=
| SNull
| SBool (b : bool)
| SInt (n : Z)
| SFloat (q : Q)
| SStr (s : string).

#[warnings="-register-all"]
Inductive Cfg : Type :=
| CLeaf (v : Scalar)
| CDict (m : gmap string Cfg).

Definition scalar_truthy (v : Scalar) : bool :=
  match v with
  | SNull => false
  | SBool b => b
  | SInt n => negb (n =? 0)%Z
  | SFloat q => negb (Qeq_bool q 0)
  | SStr s => negb (String.eqb s "")
  end.

(** Truth value of a dictionary: it is not empty. *)
Definition dict_truthy {A : Type} (d : gmap string A) : bool :=
  negb (size d =? 0)%nat.

Definition cfg_truthy (c : Cfg) : bool :=
  match c with
  | CLeaf v => scalar_truthy v
  | CDict m => dict_truthy m
  end.

(** The value [deep_merge] stores under a key of [override]: with [current]
    what [result] holds under that key so far ([None] when the key is not in
    [result]), the merge of the two when both are dictionaries, and the
    override's value otherwise. *)
Fixpoint merge_into (current : option Cfg) (value : Cfg) {struct value} : Cfg :=
  match current, value with
  | Some (CDict base), CDict override =>
      CDict (map_fold
               (fun key v result => <[key := merge_into (result !! key) v]> result)
               base override)
  | _, _ => value
  end.

(** [deep_merge(base, override)]: [result = base.copy()], then one
    assignment [result[key] = ...] per item of [override]. *)
Definition deep_merge (base override : gmap string Cfg) : gmap string Cfg :=
  map_fold (fun key value result => <[key := merge_into (result !! key) value]> result)
           base override.

(** The default configuration of [load_config]. *)
Definition default_config : gmap string Cfg :=
  <["stop_loss" :=
      CDict (<["percentage" := CLeaf (SFloat 10)]>
             (<["min_position_size" := CLeaf (SFloat 1)]> ∅))]>
  (<["monitoring" :=
      CDict (<["position_poll_interval_ms" := CLeaf (SInt 30000)]>
             (<["price_poll_interval_ms" := CLeaf (SInt 5000)]> ∅))]>
  (<["telegram" :=
      CDict (<["enabled" := CLeaf (SBool true)]>
             (<["notify_on_start" := CLeaf (SBool true)]>
             (<["notify_on_stop_loss" := CLeaf (SBool true)]>
             (<["notify_on_error" := CLeaf (SBool true)]> ∅))))]>
  (<["logging" :=
      CDict (<["level" := CLeaf (SStr "INFO")]>
             (<["file" := CLeaf (SStr "logs/bot.log")]>
             (<["max_size_mb" := CLeaf (SInt 10)]>
             (<["backup_count" := CLeaf (SInt 5)]> ∅))))]> ∅))).

(** What [load_config] reads from outside: the configuration file ([None]
    when the path does not exist, otherwise what [yaml.safe_load] returned
    or raised) and the two environment variables. *)
Record ConfigSource : Type := mkSource {
  config_file : option (Outcome Cfg);
  POSITION_POLL_INTERVAL_MS : option string;
  PRICE_POLL_INTERVAL_MS : option string
}.

(** [get_env(key, required)] over the process environment. *)
Definition get_env (environ : gmap string string) (key : string) (required : bool)
  : Outcome (option string) :=
  let value := environ !! key in
  if required && negb (env_set value)
  then Raises (mkExn OtherException
                 ("Required environment variable " +:+ key +:+ " is not set"))
  else Returns value.

Section LoadConfig.

(** [int(s)] on a string: [None] for a [ValueError]. *)
Variable py_int : string -> option Z.

(** [if os.getenv(NAME): config["monitoring"][key] = int(os.getenv(NAME))]. *)
Definition override_monitoring (key : string) (value : option string)
    (config : gmap string Cfg) : Outcome (gmap string Cfg) :=
  if env_set value then
    match py_int (default "" value) with
    | None => Raises (mkExn OtherException "ValueError: invalid literal for int()")
    | Some n =>
      match config !! "monitoring" with
      | Some (CDict m) =>
          Returns (<["monitoring" := CDict (<[key := CLeaf (SInt n)]> m)]> config)
      | Some (CLeaf _) =>
          Raises (mkExn OtherException
                    "TypeError: object does not support item assignment")
      | None => Raises (mkExn OtherException "KeyError: 'monitoring'")
      end
    end
  else Returns config.

(** The configuration after the file has been merged in. *)
Definition merged_config (file : option (Outcome Cfg)) : Outcome (gmap string Cfg) :=
  match file with
  | None => Returns default_config
  | Some (Raises e) => Raises e
  | Some (Returns yaml_config) =>
    if cfg_truthy yaml_config then
      match yaml_config with
      | CDict m => Returns (deep_merge default_config m)
      | CLeaf _ =>
          Raises (mkExn OtherException "AttributeError: object has no attribute 'items'")
      end
    else Returns (deep_merge default_config ∅)
  end.

(** [load_config()]: the cache [_config_cache] after the call, and what the
    call returns or raises. *)
Definition load_config (cache : gmap string Cfg) (source : ConfigSource)
  : gmap string Cfg * Outcome (gmap string Cfg) :=
  if dict_truthy cache then (cache, Returns cache)
  else
    match merged_config (config_file source) with
    | Raises e => (cache, Raises e)
    | Returns config =>
      match override_monitoring "position_poll_interval_ms"
                                (POSITION_POLL_INTERVAL_MS source) config with
      | Raises e => (cache, Raises e)
      | Returns config1 =>
        match override_monitoring "price_poll_interval_ms"
                                  (PRICE_POLL_INTERVAL_MS source) config1 with
        | Raises e => (cache, Raises e)
        | Returns config2 => (config2, Returns config2)
        end
      end
    end.

End LoadConfig.

(** [config[section][key]], when both exist and [section] is a dictionary. *)
Definition cfg_get (config : gmap string Cfg) (section key : string) : option Cfg :=
  match config !! section with
  | Some (CDict m) => m !! key
  | _ => None
  end.

(** A YAML file that only sets the stop-loss percentage. *)
Definition yaml_percentage_5 : Cfg :=
  CDict (<["stop_loss" := CDict (<["percentage" := CLeaf (SFloat 5)]> ∅)]> ∅).

(** ** trading.py: the client cache *)

Module Trading.

Definition CLOB_HOST : string := "https://clob.polymarket.com".
Definition CHAIN_ID : Z := 137.

(** A [ClobClient] with its API credentials set. *)
Record ClobClient : Type := mkClobClient {
  client_host : string;
  client_key : string;
  client_chain_id : Z;
  client_signature_type : Z;
  client_funder : string;
  client_creds : string
}.

(** [private_key[2:] if private_key.startswith("0x") else private_key]. *)
Definition strip_0x (private_key : string) : string :=
  if String.prefix "0x" private_key
  then String.substring 2 (String.length private_key - 2) private_key
  else private_key.

Section Client.
Context {W : Type}.

(** [ClobClient(CLOB_HOST, key=..., chain_id=CHAIN_ID, signature_type=...,
    funder=...)] followed by [client.create_or_derive_api_creds()]: the
    credentials, or what either of them raised. *)
Variable create_or_derive_api_creds : string -> Z -> string -> W -> W * Outcome string.

(** [get_clob_client(force_new, signature_type)]: the cache [_clob_client]
    after the call, the world, the events, and the client returned or the
    exception raised. *)
Definition get_clob_client (cache : option ClobClient) (environ : gmap string string)
    (force_new : bool) (signature_type : Z) (w : W)
  : option ClobClient * W * list Event * Outcome ClobClient :=
  match cache, force_new with
  | Some client, false => (cache, w, [], Returns client)
  | _, _ =>
    match get_env environ "POLYMARKET_WALLET_PRIVATE_KEY" true with
    | Raises e => (cache, w, [], Raises e)
    | Returns private_key =>
      match get_env environ "POLYMARKET_FUNDER_ADDRESS" true with
      | Raises e => (cache, w, [], Raises e)
      | Returns funder =>
        let private_key_clean := strip_0x (default "" private_key) in
        match create_or_derive_api_creds private_key_clean signature_type
                                         (default "" funder) w with
        | (w1, Raises e) => (cache, w1, [EvDeriveCreds signature_type], Raises e)
        | (w1, Returns creds) =>
          let client :=
            mkClobClient CLOB_HOST private_key_clean CHAIN_ID signature_type
                         (default "" funder) creds in
          (Some client, w1, [EvDeriveCreds signature_type], Returns client)
        end
      end
    end
  end.

End Client.

(** An environment with both credentials, and a venue that hands out
    credentials. *)
Definition environ_ok : gmap string string :=
  <["POLYMARKET_WALLET_PRIVATE_KEY" := "0xabc"]>
  (<["POLYMARKET_FUNDER_ADDRESS" := "0xfunder"]> ∅).

Definition creds_ok (key : string) (signature_type : Z) (funder : string) (w : unit)
  : unit * Outcome string :=
  (w, Returns "creds").

End Trading.

(** ** database.py *)

Module Database.

(** JSON values, as [response.json()] returns them. *)
#[warnings="-register-all"]
Inductive Json : Type :=
| JNull
| JBool (b : bool)
| JNum (n : Z)
| JStr (s : string)
| JList (items : list Json)
| JDict (fields : gmap string Json).

(** The arguments of [log_trade]. *)
Record Trade : Type := mkTrade {
  market_title : string;
  token_id : string;
  outcome : string;
  action : string;
  entry_price : Q;
  exit_price : Q;
  shares : Q;
  loss_percentage : Q;
  order_id : PyVal;
  status : string
}.

(** The statements the module sends through [_execute]. *)
Inductive Statement : Type :=
| CreateTable
| InsertTrade (trade : Trade).

(** What the [try] of [log_trade] yields once [_execute] has returned
    [result]: [result[0].get("results", {}).get("last_insert_rowid")] when
    [result] is a non-empty list, [JNull] (Python's [None]) when that
    expression is [None], when [result] is falsy, or when an access raises
    and the [except] clause returns [None]. *)
Definition last_insert_rowid (result : Json) : Json :=
  match result with
  | JList (JDict first :: _) =>
    match first !! "results" with
    | None => JNull
    | Some (JDict results) => default JNull (results !! "last_insert_rowid")
    | Some _ => JNull
    end
  | _ => JNull
  end.

(** [s.replace(old, new)] for a non-empty [old]: every occurrence of [old],
    found from left to right without overlap, becomes [new].  [skip] counts
    the characters of a matched occurrence still to be passed over. *)
Fixpoint replace_from (old new : string) (skip : nat) (s : string) : string :=
  match s with
  | EmptyString => EmptyString
  | String c rest =>
    match skip with
    | S k => replace_from old new k rest
    | O =>
      if String.prefix old s
      then new +:+ replace_from old new (String.length old - 1) rest
      else String c (replace_from old new 0 rest)
    end
  end.

Definition py_replace (old new s : string) : string := replace_from old new 0 s.

(** [_get_db_url()]. *)
Definition _get_db_url (environ : gmap string string) : Outcome string :=
  match get_env environ "TURSO_DATABASE_URL" true with
  | Raises e => Raises e
  | Returns value =>
    let db_url := default "" value in
    Returns (if String.prefix "libsql://" db_url
             then py_replace "libsql://" "https://" db_url
             else db_url)
  end.

Section Ledger.
Context {W : Type}.

(** [_execute(sql, args)]: the URL and token look-ups, the HTTP post,
    [raise_for_status] and [response.json()]. *)
Variable execute : Statement -> W -> W * Outcome Json.

(** [init_tables()]: the flag [_initialized] after the call, the world, the
    statements passed to [_execute], and whether the call returned or
    raised. *)
Definition init_tables (initialized : bool) (w : W)
  : bool * W * list Statement * Outcome unit :=
  if initialized then (initialized, w, [], Returns tt)
  else
    match execute CreateTable w with
    | (w1, Returns _) => (true, w1, [CreateTable], Returns tt)
    | (w1, Raises e) => (initialized, w1, [CreateTable], Raises e)
    end.

(** [log_trade(...)]. *)
Definition log_trade (initialized : bool) (trade : Trade) (w : W)
  : bool * W * list Statement * Outcome Json :=
  match init_tables initialized w with
  | (initialized1, w1, sent, Raises e) => (initialized1, w1, sent, Raises e)
  | (initialized1, w1, sent, Returns _) =>
    match execute (InsertTrade trade) w1 with
    | (w2, Returns result) =>
        (initialized1, w2, sent ++ [InsertTrade trade],
         Returns (last_insert_rowid result))
    | (w2, Raises e) =>
        (initialized1, w2, sent ++ [InsertTrade trade],
         match exn_class e with
         | KeyboardInterrupt => Raises e
         | _ => Returns JNull
         end)
    end
  end.

End Ledger.

Definition trade_A : Trade :=
  mkTrade "Market A" "A" "YES" "STOP_LOSS" (65 # 100) (55 # 100) 10 (200 # 13)
          (PStr "0xabc") "SUCCESS".

(** A store that is down, and a store that answers every statement with row
    id 7. *)
Definition store_down (statement : Statement) (w : unit) : unit * Outcome Json :=
  (w, Raises (mkExn RequestException "connection refused")).

Definition store_up (statement : Statement) (w : unit) : unit * Outcome Json :=
  (w, Returns (JList [JDict (<["results" :=
                                 JDict (<["last_insert_rowid" := JNum 7]> ∅)]> ∅)])).

End Database.

(** A venue that builds clients but cannot be reached for orders. *)
Definition unreachable_venue : Venue unit :=
  mkVenue unit
    (fun w => (w, Returns [position_A]))
    (fun _ w => (w, None))
    (fun _ _ _ w => (w, Raises (mkExn RequestException "connection refused"))).

(* ===================================================================== *)
(** * Part II: properties                                                 *)
(* ===================================================================== *)

(** ** Trigger calculator *)

Lemma Qle_bool_false (a b : Q) : Qle_bool a b = false <-> (b < a)%Q.
Proof.
  destruct (Qle_bool a b) eqn:E; split; intros H; try reflexivity; try discriminate.
  - apply Qle_bool_iff in E. apply Qlt_not_le in H. contradiction.
  - apply Qnot_le_lt. intros Hle. apply Qle_bool_iff in Hle. congruence.
Qed.

Lemma Qgt_bool_true (a b : Q) : Qgt_bool a b = true <-> (b < a)%Q.
Proof.
  unfold Qgt_bool. rewrite negb_true_iff. apply Qle_bool_false.
Qed.

(** The sign of the loss percentage of a held position is the sign of
    [entry_price - current_price]. *)
Lemma drop_negative_iff_profit (entry_price current_price : Q) :
  (0 < entry_price)%Q ->
  ((entry_price - current_price) / entry_price * 100 < 0)%Q
  <-> (entry_price < current_price)%Q.
Proof.
  intros Hpos.
  assert (Hinv : (0 < / entry_price)%Q) by (apply Qinv_lt_0_compat; exact Hpos).
  unfold Qdiv. set (k := (/ entry_price)%Q) in *.
  split; intros H; nra.
Qed.

(** The worked example of the docstring in exact arithmetic: bought at 0.65,
    now at 0.55, a 10% stop-loss triggers (the drop is 15.38...%); at 0.60 it
    does not. *)
Example trigger_docstring_example :
  fst (calculate_stop_loss_trigger (65 # 100) (55 # 100) 10) = true
  /\ (snd (calculate_stop_loss_trigger (65 # 100) (55 # 100) 10) == 200 # 13)%Q
  /\ fst (calculate_stop_loss_trigger (65 # 100) (60 # 100) 10) = false.
Proof. repeat split. Qed.

(** *** The calculator on binary64 values *)

(** The number of binary digits of a mantissa. *)
Lemma digits2_pos_bounds (m : positive) :
  (2 ^ (Z.pos (digits2_pos m) - 1) <= Z.pos m < 2 ^ Z.pos (digits2_pos m))%Z.
Proof.
  induction m as [p IH|p IH|]; cbn [digits2_pos].
  - change (PosDef.Pos.succ (digits2_pos p)) with (Pos.succ (digits2_pos p)).
    rewrite Pos2Z.inj_succ. unfold Z.succ.
    replace (Z.pos (digits2_pos p) + 1 - 1)%Z with (Z.succ (Z.pos (digits2_pos p) - 1)) by lia.
    rewrite Z.pow_succ_r by lia. rewrite Z.pow_add_r by lia. lia.
  - change (PosDef.Pos.succ (digits2_pos p)) with (Pos.succ (digits2_pos p)).
    rewrite Pos2Z.inj_succ. unfold Z.succ.
    replace (Z.pos (digits2_pos p) + 1 - 1)%Z with (Z.succ (Z.pos (digits2_pos p) - 1)) by lia.
    rewrite Z.pow_succ_r by lia. rewrite Z.pow_add_r by lia. lia.
  - cbn. lia.
Qed.

Lemma iter_xO_value (m d : positive) :
  Z.pos (Pos.iter xO m d) = (Z.pos m * 2 ^ Z.pos d)%Z.
Proof.
  induction d as [|d IH] using Pos.peano_ind.
  - cbn. lia.
  - rewrite Pos.iter_succ, Pos2Z.inj_succ, Z.pow_succ_r by lia.
    rewrite Pos2Z.inj_xO, IH. lia.
Qed.

Lemma shl_align_value (m : positive) (e ez : Z) :
  (ez <= e)%Z -> Z.pos (shl_align m e ez).1 = (Z.pos m * 2 ^ (e - ez))%Z.
Proof.
  intros Hle. unfold shl_align.
  destruct (ez - e)%Z as [|d|d] eqn:Hd.
  - replace (e - ez)%Z with 0%Z by lia. cbn [fst]. lia.
  - lia.
  - replace (e - ez)%Z with (Z.pos d) by lia. cbn [fst].
    change (PosDef.Pos.iter xO m d) with (Pos.iter xO m d). apply iter_xO_value.
Qed.

Lemma bounded_digits (m : positive) (e : Z) :
  bounded prec emax m e = true ->
  (emin <= e)%Z /\ (Z.pos (digits2_pos m) <= prec)%Z
  /\ ((emin < e)%Z -> Z.pos (digits2_pos m) = prec).
Proof.
  unfold bounded, canonical_mantissa, fexp. rewrite andb_true_iff, Z.eqb_eq.
  intros [Hc _]. lia.
Qed.

(** Two positive binary64 numbers compare as their aligned mantissas do. *)
Lemma aligned_lt_compare (m1 m2 : positive) (e1 e2 : Z) :
  bounded prec emax m1 e1 = true -> bounded prec emax m2 e2 = true ->
  (Z.pos (shl_align m1 e1 (Z.min e1 e2)).1 < Z.pos (shl_align m2 e2 (Z.min e1 e2)).1)%Z ->
  SFcompare (S754_finite false m1 e1) (S754_finite false m2 e2) = Some Lt.
Proof.
  intros H1 H2. rewrite !shl_align_value by lia. intros Hlt. cbn [SFcompare].
  destruct (Z.compare_spec e1 e2) as [Heq | Hl | Hg]; [|reflexivity|].
  - subst e2. rewrite Z.min_id, Z.sub_diag in Hlt. 
    change (PosDef.Pos.compare_cont Eq m1 m2) with (Pos.compare m1 m2).
    f_equal. apply Pos.compare_lt_iff. lia.
  - exfalso.
    apply bounded_digits in H1, H2.
    destruct H1 as (_ & _ & Hd1). destruct H2 as (Hmin & Hd2 & _).
    specialize (Hd1 ltac:(lia)).
    pose proof (digits2_pos_bounds m1) as [Hlo1 _].
    pose proof (digits2_pos_bounds m2) as [_ Hhi2].
    rewrite Hd1 in Hlo1.
    rewrite Z.min_r, Z.sub_diag in Hlt by lia.
    assert (Hp : (2 ^ 1 <= 2 ^ (e1 - e2))%Z) by (apply Z.pow_le_mono_r; lia).
    assert (Hq : (2 ^ Z.pos (digits2_pos m2) <= 2 ^ prec)%Z) by (apply Z.pow_le_mono_r; lia).
    change (2 ^ prec)%Z with (2 * 2 ^ (prec - 1))%Z in Hq.
    change (2 ^ 1)%Z with 2%Z in Hp.
    nia.
Qed.

(** A rounded result carries the sign it was given. *)
Lemma binary_round_aux_sign (s : bool) (m e : Z) (l : location) :
  match binary_round_aux prec emax s m e l with
  | S754_zero s' | S754_infinity s' | S754_finite s' _ _ => s' = s
  | S754_nan => True
  end.
Proof.
  unfold binary_round_aux.
  destruct (shr_fexp prec emax m e l) as [mrs' e'].
  destruct (shr_fexp prec emax _ e' loc_Exact) as [mrs'' e''].
  destruct (shr_m mrs''); [reflexivity | | exact I].
  destruct (e'' <=? emax - prec)%Z; reflexivity.
Qed.

Lemma binary_round_sign (s : bool) (m : positive) (e : Z) :
  match binary_round prec emax s m e with
  | S754_zero s' | S754_infinity s' | S754_finite s' _ _ => s' = s
  | S754_nan => True
  end.
Proof.
  unfold binary_round.
  destruct (shl_align m e _) as [mz ez]. apply binary_round_aux_sign.
Qed.

(** Strictly negative and strictly positive values. *)
Lemma SFltb_zero_r (x : spec_float) :
  SFltb x (S754_zero false) = true ->
  x = S754_infinity true \/ exists m e, x = S754_finite true m e.
Proof.
  destruct x as [s|[|]| |[|] m e]; cbn; try discriminate; intros _; eauto.
Qed.

Lemma SFltb_zero_l (x : spec_float) :
  SFltb (S754_zero false) x = true ->
  x = S754_infinity false \/ exists m e, x = S754_finite false m e.
Proof.
  destruct x as [s|[|]| |[|] m e]; cbn; try discriminate; intros _; eauto.
Qed.

(** Multiplying or dividing by a positive number keeps a strict sign. *)
Lemma SFmul_sign (x : spec_float) (m : positive) (e : Z) :
  let r := SFmul prec emax x (S754_finite false m e) in
  (SFltb r (S754_zero false) = true -> SFltb x (S754_zero false) = true)
  /\ (SFltb (S754_zero false) r = true -> SFltb (S754_zero false) x = true).
Proof.
  cbv zeta. destruct x as [s|s| |s mx ex]; cbn [SFmul]; rewrite ?xorb_false_r.
  - destruct s; split; discriminate.
  - destruct s; split; cbn; congruence.
  - split; discriminate.
  - pose proof (binary_round_aux_sign s (Z.pos (mx * m)) (ex + e) loc_Exact) as Hs.
    destruct (binary_round_aux prec emax s _ _ _) as [s'|s'| |s' m' e'];
      try subst s'; destruct s; split; cbn; congruence.
Qed.

Lemma SFdiv_sign (x y : spec_float) :
  SFltb (S754_zero false) y = true ->
  let r := SFdiv prec emax x y in
  (SFltb r (S754_zero false) = true -> SFltb x (S754_zero false) = true)
  /\ (SFltb (S754_zero false) r = true -> SFltb (S754_zero false) x = true).
Proof.
  intros Hy. cbv zeta.
  destruct (SFltb_zero_l y Hy) as [-> | (my & ey & ->)];
    destruct x as [s|s| |s mx ex]; cbn [SFdiv]; rewrite ?xorb_false_r;
    try (destruct s; split; cbn; congruence);
    try (split; discriminate).
  destruct (SFdiv_core_binary prec emax (Z.pos mx) ex (Z.pos my) ey) as [[mz ez] lz].
  pose proof (binary_round_aux_sign s mz ez lz) as Hs.
  destruct (binary_round_aux prec emax s _ _ _) as [s'|s'| |s' m' e'];
    try subst s'; destruct s; split; cbn; congruence.
Qed.

(** The sign of a difference [x - y] with [x] positive tells the order. *)
Lemma SFsub_sign (x y : spec_float) :
  valid_binary x = true -> valid_binary y = true ->
  SFltb (S754_zero false) x = true ->
  let r := SFsub prec emax x y in
  (SFltb r (S754_zero false) = true -> SFltb x y = true)
  /\ (SFltb (S754_zero false) r = true -> SFltb y x = true).
Proof.
  intros Hvx Hvy Hx. cbv zeta.
  destruct (SFltb_zero_l x Hx) as [-> | (mx & ex & ->)].
  - destruct y as [s|[|]| |[|] my ey]; cbn; split; congruence.
  - destruct y as [s|[|]| |sy my ey]; cbn [SFsub];
      try (split; cbn; congruence).
    cbn [valid_binary SpecFloat.valid_binary] in Hvx, Hvy.
    set (X := Z.pos (shl_align mx ex (Z.min ex ey)).1).
    set (Y := Z.pos (shl_align my ey (Z.min ex ey)).1).
    assert (HX : (0 < X)%Z) by (unfold X; lia).
    assert (HY : (0 < Y)%Z) by (unfold Y; lia).
    destruct (cond_Zopp false X - cond_Zopp sy Y)%Z as [|d|d] eqn:Hd;
      cbn [binary_normalize].
    + split; discriminate.
    + pose proof (binary_round_sign false d (Z.min ex ey)) as Hs.
      split.
      * destruct (binary_round prec emax false d _) as [s'|s'| |s' m' e'];
          try subst s'; cbn; congruence.
      * intros _. destruct sy; [reflexivity|].
        cbn [cond_Zopp] in Hd. unfold SFltb.
        rewrite (aligned_lt_compare my mx ey ex Hvy Hvx); [reflexivity|].
        rewrite (Z.min_comm ey ex). fold X Y. lia.
    + pose proof (binary_round_sign true d (Z.min ex ey)) as Hs.
      split.
      * intros _. destruct sy; cbn [cond_Zopp] in Hd; [lia|]. unfold SFltb.
        rewrite (aligned_lt_compare mx my ex ey Hvx Hvy); [reflexivity|].
        fold X Y. lia.
      * destruct (binary_round prec emax true d _) as [s'|s'| |s' m' e'];
          try subst s'; cbn; congruence.
Qed.

(** The computed percentage never contradicts the price move: a negative
    percentage means the price is above the entry price, a positive one that
    it is below. *)
Lemma drop_sign (entry_price current_price : float) :
  (0 <? entry_price)%float = true ->
  let drop_pct := ((entry_price - current_price) / entry_price * 100)%float in
  ((drop_pct <? 0)%float = true -> (entry_price <? current_price)%float = true)
  /\ ((0 <? drop_pct)%float = true -> (current_price <? entry_price)%float = true).
Proof.
  cbv zeta. rewrite !FloatAxioms.ltb_spec, FloatAxioms.mul_spec, FloatAxioms.div_spec,
    FloatAxioms.sub_spec.
  change (Prim2SF 0) with (S754_zero false).
  change (Prim2SF 100) with (S754_finite false 7036874417766400 (-46)).
  intros Hentry.
  pose proof (Prim2SF_valid entry_price) as Hve.
  pose proof (Prim2SF_valid current_price) as Hvc.
  set (x := Prim2SF entry_price) in *. set (y := Prim2SF current_price) in *.
  destruct (SFmul_sign (SF64div (SF64sub x y) x) 7036874417766400 (-46)) as [Hm1 Hm2].
  destruct (SFdiv_sign (SF64sub x y) x Hentry) as [Hd1 Hd2].
  destruct (SFsub_sign x y Hve Hvc Hentry) as [Hs1 Hs2].
  split; intros H.
  - apply Hs1, Hd1, Hm1, H.
  - apply Hs2, Hd2, Hm2, H.
Qed.

Lemma float_lt_not_le (a : float) :
  (0 <? a)%float = true -> (a <=? 0)%float = false.
Proof.
  rewrite FloatAxioms.ltb_spec, FloatAxioms.leb_spec. change (Prim2SF 0) with (S754_zero false).
  intros H. destruct (SFltb_zero_l _ H) as [-> | (m & e & ->)]; reflexivity.
Qed.

Lemma SFcompare_Eq_sym (a b : spec_float) :
  SFcompare a b = Some Eq -> SFcompare b a = Some Eq.
Proof.
  assert (Hfin : forall (ma mb : positive) (ea eb : Z) (f : comparison -> comparison),
            (forall c, f c = Eq -> c = Eq) -> f Eq = Eq ->
            match (ea ?= eb)%Z with
            | Eq => f (Pos.compare ma mb)
            | Lt => Gt
            | Gt => Lt
            end = Eq \/
            match (ea ?= eb)%Z with
            | Eq => f (Pos.compare ma mb)
            | Lt => Lt
            | Gt => Gt
            end = Eq ->
            (eb ?= ea)%Z = Eq /\ Pos.compare mb ma = Eq).
  { intros ma mb ea eb f Hf Hf0 H.
    destruct (Z.compare_spec ea eb) as [->|Hl|Hg];
      [|destruct H; discriminate|destruct H; discriminate].
    assert (Hm : Pos.compare ma mb = Eq) by (destruct H as [H|H]; apply Hf, H).
    apply Pos.compare_eq in Hm. subst mb.
    split; [apply Z.compare_refl | apply Pos.compare_refl]. }
  destruct a as [sa|[|]| |[|] ma ea], b as [sb|[|]| |[|] mb eb];
    cbn; try discriminate; try reflexivity.
  - change (PosDef.Pos.compare_cont Eq ma mb) with (Pos.compare ma mb).
    change (PosDef.Pos.compare_cont Eq mb ma) with (Pos.compare mb ma).
    intros [= H].
    destruct (Hfin ma mb ea eb CompOpp) as [-> ->];
      [intros []; cbn; congruence | reflexivity | left; exact H | reflexivity].
  - change (PosDef.Pos.compare_cont Eq ma mb) with (Pos.compare ma mb).
    change (PosDef.Pos.compare_cont Eq mb ma) with (Pos.compare mb ma).
    intros [= H].
    destruct (Hfin ma mb ea eb (fun c => c)) as [-> ->];
      [intros c Hc; exact Hc | reflexivity | right; exact H | reflexivity].
Qed.

(** [a == b] implies [a >= b]. *)
Lemma float_eq_le (a b : float) :
  (a =? b)%float = true -> (b <=? a)%float = true.
Proof.
  rewrite FloatAxioms.eqb_spec, FloatAxioms.leb_spec. unfold SFeqb, SFleb.
  destruct (SFcompare (Prim2SF a) (Prim2SF b)) as [[| |]|] eqn:Hc; try discriminate.
  intros _. rewrite (SFcompare_Eq_sym _ _ Hc). reflexivity.
Qed.

(** C2. On binary64 values, as Python computes them: for [entry_price <= 0]
    the calculator returns [(False, 0.0)]; for [entry_price > 0] it returns
    the percentage [(entry_price - current_price) / entry_price * 100], each
    operation rounded, and triggers exactly when that percentage is at
    least the threshold, equality included.  The percentage is signed: it is
    negative only when the current price is above the entry price (the
    position is in profit) and positive only when it is below. *)
Theorem C2_trigger_calculator (entry_price current_price threshold_pct : float) :
  ((entry_price <=? 0)%float = true ->
     Binary64.calculate_stop_loss_trigger entry_price current_price threshold_pct
     = (false, 0%float))
  /\ ((0 <? entry_price)%float = true ->
      let drop_pct := ((entry_price - current_price) / entry_price * 100)%float in
      let result :=
        Binary64.calculate_stop_loss_trigger entry_price current_price threshold_pct in
      snd result = drop_pct
      /\ (fst result = true <-> (threshold_pct <=? drop_pct)%float = true)
      /\ ((drop_pct =? threshold_pct)%float = true -> fst result = true)
      /\ ((drop_pct <? 0)%float = true -> (entry_price <? current_price)%float = true)
      /\ ((0 <? drop_pct)%float = true -> (current_price <? entry_price)%float = true)).
Proof.
  unfold Binary64.calculate_stop_loss_trigger. split.
  - intros ->. reflexivity.
  - intros Hpos. rewrite (float_lt_not_le _ Hpos). cbn [fst snd].
    split; [reflexivity|]. split; [reflexivity|]. split; [apply float_eq_le|].
    apply drop_sign. exact Hpos.
Qed.

(** An entry price of 0 is refused; bought at 0.5 and now at 0.25, a 50%
    stop-loss triggers on the boundary: the computed drop is exactly 50. *)
Lemma C2_trigger_calculator_witness :
  Binary64.calculate_stop_loss_trigger 0 0.5 10 = (false, 0%float)
  /\ fst (Binary64.calculate_stop_loss_trigger 0.5 0.25 50) = true.
Proof.
  split.
  - apply (C2_trigger_calculator 0 0.5 10). reflexivity.
  - apply (C2_trigger_calculator 0.5 0.25 50); reflexivity.
Defined.

(** The docstring's example on binary64 values, a position in profit, and
    two inputs on which rounding decides: the quotient of 0.2265625 by
    0.78125 is 0.29 in exact arithmetic, but its binary64 value times 100 is
    just under 29, so a 29% stop-loss does not trigger; and a price of 1e-20
    is absorbed by the subtraction, so that the computed drop is 100. *)
Example trigger_binary64_examples :
  Binary64.calculate_stop_loss_trigger 0.65 0.55 10 = (true, 15.38461538461538%float)
  /\ Binary64.calculate_stop_loss_trigger 0.5 0.75 10 = (false, (-50)%float)
  /\ Binary64.calculate_stop_loss_trigger 0.78125 0.5546875 29
     = (false, 28.999999999999996%float)
  /\ Binary64.calculate_stop_loss_trigger 0.5 1e-20 100 = (true, 100%float).
Proof. repeat split. Qed.

(** ** Liquidation executor *)

Lemma methods_tried_app (a b : list Event) :
  methods_tried (a ++ b) = methods_tried a ++ methods_tried b.
Proof.
  induction a as [|ev a IH]; [reflexivity|].
  destruct ev; cbn; rewrite ?IH; reflexivity.
Qed.

Lemma count_app (f : Event -> bool) (a b : list Event) :
  count f (a ++ b) = count f a + count f b.
Proof.
  induction a as [|ev a IH]; cbn; [reflexivity|]. rewrite IH. lia.
Qed.

Lemma after_events {W A : Type} (pre : list Event) (r : W * list Event * A) :
  (after pre r).1.2 = pre ++ r.1.2.
Proof. destruct r as [[w evs] a]. reflexivity. Qed.

Lemma count_post_order_methods (evs : list Event) :
  count is_post_order evs = length (methods_tried evs).
Proof.
  induction evs as [|ev evs IH]; [reflexivity|].
  destruct ev; cbn; rewrite ?IH; reflexivity.
Qed.

Lemma escalation_chain_NoDup (signature_type : Z) :
  NoDup (escalation_chain signature_type).
Proof.
  unfold escalation_chain.
  destruct (signature_type =? 1)%Z; [|destruct (signature_type =? 0)%Z].
  - apply (bool_decide_unpack _). vm_compute. exact I.
  - apply (bool_decide_unpack _). vm_compute. exact I.
  - apply NoDup_singleton.
Qed.

Lemma escalation_chain_length (signature_type : Z) :
  length (escalation_chain signature_type) <= 3.
Proof.
  unfold escalation_chain.
  destruct (signature_type =? 1)%Z; [|destruct (signature_type =? 0)%Z]; cbn; lia.
Qed.

Section ExecutorFacts.
Context {W : Type}.
Variable venue : Venue W.

(** The order submissions of a call walk down the escalation chain of the
    signature type the call was entered with. *)
Lemma methods_tried_chain (token_id : string) (size : Q) (signature_type : Z) (w : W) :
  exists rest,
    escalation_chain signature_type
    = methods_tried (close_position venue token_id size signature_type w).1.2 ++ rest.
Proof.
  funelim (close_position venue token_id size signature_type w);
    try (rewrite after_events, methods_tried_app);
    cbn [fst snd methods_tried app];
    try (eexists; reflexivity).
  all: try match goal with
           | IH : exists _, _ |- _ =>
               let rest := fresh "rest" in
               let Hrest := fresh "Hrest" in
               destruct IH as [rest Hrest]; cbn in Hrest;
               exists rest; rewrite <- Hrest
           end.
  all: unfold escalation_chain.
  all: repeat match goal with
              | |- context [(?a =? ?b)%Z] => destruct (Z.eqb_spec a b)
              end; subst; try lia; try (eexists; reflexivity).
Qed.

(** Whatever the entry point, a call submits at most three orders and never
    twice under the same signature type. *)
Lemma at_most_three_attempts (token_id : string) (size : Q) (signature_type : Z) (w : W) :
  count is_post_order (close_position venue token_id size signature_type w).1.2 <= 3.
Proof.
  destruct (methods_tried_chain token_id size signature_type w) as [rest H].
  pose proof (escalation_chain_length signature_type) as Hlen.
  rewrite H, length_app in Hlen. rewrite count_post_order_methods. lia.
Qed.

Lemma never_repeats_a_method (token_id : string) (size : Q) (signature_type : Z) (w : W) :
  NoDup (methods_tried (close_position venue token_id size signature_type w).1.2).
Proof.
  destruct (methods_tried_chain token_id size signature_type w) as [rest H].
  pose proof (escalation_chain_NoDup signature_type) as Hnd.
  rewrite H in Hnd. apply NoDup_app in Hnd. apply Hnd.
Qed.

(** Entered at a signature type other than 1 and 0, the call is a single
    pass: one entry, at most one submission, no recursion. *)
Lemma close_position_terminal (token_id : string) (size : Q) (signature_type : Z) (w : W) :
  signature_type <> 1%Z -> signature_type <> 0%Z ->
  let evs := (close_position venue token_id size signature_type w).1.2 in
  count is_closing evs = 1
  /\ (methods_tried evs = [] \/ methods_tried evs = [signature_type]).
Proof.
  intros H1 H0.
  funelim (close_position venue token_id size signature_type w);
    try contradiction; cbn; auto.
Qed.

(** The executor sends no notification of its own. *)
Lemma close_position_silent (token_id : string) (size : Q) (signature_type : Z) (w : W) :
  let evs := (close_position venue token_id size signature_type w).1.2 in
  count is_notify_new evs = 0 /\ count is_notify_closed evs = 0
  /\ count is_notify_error evs = 0.
Proof.
  funelim (close_position venue token_id size signature_type w);
    try (rewrite after_events, !count_app); cbn; auto.
Qed.

End ExecutorFacts.

(** Entered at signature type 1, three signature rejections walk the whole
    chain 1, 0, 2. *)
Example escalation_from_legacy_proxy :
  methods_tried (close_position rejecting_venue "A" 10 1%Z tt).1.2 = [1; 0; 2]%Z.
Proof. reflexivity. Qed.

(** Entered at the default signature type, a call never escalates: whatever
    the venue answers, it submits at most one order, under signature type 2. *)
Lemma default_entry_single_submission {W : Type} (venue : Venue W)
    (token_id : string) (size : Q) (w : W) :
  let evs := (close_position_default venue token_id size w).1.2 in
  methods_tried evs = [] \/ methods_tried evs = [2%Z].
Proof.
  apply (close_position_terminal venue token_id size 2%Z w); discriminate.
Qed.

(** The escalation the handler is written for.  When the submission of a
    call is rejected for its signature: under signature type 1 the call
    continues as exactly one call under type 0; under type 0 as exactly one
    call under type 2; under type 2, or any other type, it ends with the
    terminal "Signature failed" result.  So every call makes at most 3
    submission attempts and never repeats a signature type. *)
Lemma signature_escalation_chain {W : Type} (venue : Venue W)
    (token_id : string) (size : Q) (signature_type : Z) (w w1 w2 : W) (e : Exn) :
  get_clob_client venue signature_type w = (w1, None) ->
  (0 < py_round2 size)%Q ->
  submit_order venue signature_type token_id (py_round2 size) w1 = (w2, Raises e) ->
  classify_error e = InvalidSignature ->
  let attempt :=
    [EvClosing token_id size signature_type; EvDeriveCreds signature_type;
     EvPostOrder signature_type token_id (py_round2 size)] in
  close_position venue token_id size signature_type w
  = (if (signature_type =? 1)%Z
     then after attempt (close_position venue token_id size 0%Z w2)
     else if (signature_type =? 0)%Z
     then after attempt (close_position venue token_id size 2%Z w2)
     else (w2, attempt, Returns (failure ("Signature failed: " +:+ exn_msg e))))
  /\ count is_post_order (close_position venue token_id size signature_type w).1.2 <= 3
  /\ NoDup (methods_tried (close_position venue token_id size signature_type w).1.2).
Proof.
  intros Hclient Hsize Hsubmit Hclass. cbv zeta.
  apply Qle_bool_false in Hsize.
  split; [|split; [apply at_most_three_attempts | apply never_repeats_a_method]].
  funelim (close_position venue token_id size signature_type w);
    try congruence;
    repeat match goal with
           | H1 : ?x = _, H2 : ?x = _ |- _ =>
               rewrite H1 in H2; inversion H2; subst; clear H2
           end;
    try congruence.
  - reflexivity.
  - reflexivity.
  - destruct (Z.eqb_spec signature_type 1); [contradiction|].
    destruct (Z.eqb_spec signature_type 0); [contradiction|]. reflexivity.
Qed.

(** C1. The code at the failing input: a call entered at the default
    signature type 2 (Safe-proxy) whose submission the venue rejects with
    "invalid signature".  The error is classified as a signature rejection,
    and the call is over after that one submission, with the terminal
    "Signature failed" result: no retry under type 0 (Direct-key) and none
    under type 1 (Legacy-proxy), although the handler holds an escalation
    for exactly this error.  The escalation runs 1, 0, 2 and so ends where
    the default entry begins. *)
Theorem C1_failing_input :
  default_signature_type = 2%Z
  /\ classify_error (mkExn OtherException "invalid signature") = InvalidSignature
  /\ close_position_default rejecting_venue "A" 10 tt
     = (tt,
        [EvClosing "A" 10 2; EvDeriveCreds 2; EvPostOrder 2 "A" (py_round2 10)],
        Returns (failure "Signature failed: invalid signature"))
  /\ methods_tried (close_position_default rejecting_venue "A" 10 tt).1.2 = [2%Z]
  /\ methods_tried (close_position rejecting_venue "A" 10 1%Z tt).1.2 = [1; 0; 2]%Z.
Proof. repeat split. Qed.

(** C5, as stated, fails: with a size that rounds to 0 the call has already
    built a fresh trading client, deriving API credentials at the venue,
    before it looks at the size; and when that derivation fails the call
    raises instead of returning the size-too-small failure. *)
Lemma C5_counterexample :
  (py_round2 0 <= 0)%Q
  /\ (close_position_default quiet_venue "A" 0 tt).1.2
     = [EvClosing "A" 0 2; EvDeriveCreds 2]
  /\ count is_venue_call (close_position_default quiet_venue "A" 0 tt).1.2 = 1
  /\ (close_position_default offline_venue "A" 0 tt).2
     = Raises (mkExn RequestException "connection refused").
Proof. repeat split. discriminate. Qed.

(** C5 (amended). For every call in which the size rounded to 2 decimals is
    [<= 0] and the trading client for the requested signature type has been
    built, the call returns [success=False] with the error "Size too small"
    and submits no order: its only venue call is the credential derivation
    that precedes the size check. *)
Theorem C5_size_too_small {W : Type} (venue : Venue W)
    (token_id : string) (size : Q) (signature_type : Z) (w w1 : W) :
  (py_round2 size <= 0)%Q ->
  get_clob_client venue signature_type w = (w1, None) ->
  close_position venue token_id size signature_type w
  = (w1, [EvClosing token_id size signature_type; EvDeriveCreds signature_type],
     Returns (failure "Size too small"))
  /\ dict_get (failure "Size too small") "success" = PBool false
  /\ dict_get (failure "Size too small") "error" = PStr "Size too small"
  /\ count is_post_order (close_position venue token_id size signature_type w).1.2 = 0.
Proof.
  intros Hle Hclient. apply Qle_bool_iff in Hle.
  assert (Hcall : close_position venue token_id size signature_type w
                  = (w1, [EvClosing token_id size signature_type;
                          EvDeriveCreds signature_type],
                     Returns (failure "Size too small"))).
  { funelim (close_position venue token_id size signature_type w); congruence. }
  rewrite Hcall. repeat split.
Qed.

Lemma C5_size_too_small_witness :
  close_position quiet_venue "A" (1 # 1000) 2%Z tt
  = (tt, [EvClosing "A" (1 # 1000) 2; EvDeriveCreds 2],
     Returns (failure "Size too small")).
Proof.
  apply (C5_size_too_small quiet_venue "A" (1 # 1000) 2%Z tt tt).
  - vm_compute. discriminate.
  - reflexivity.
Defined.

(** ** The reported outcome *)






(** ** Position tracker *)

Lemma is_active_valid (pos : Position) : is_active pos = true <-> valid pos.
Proof.
  unfold is_active, valid. rewrite andb_true_iff, !Qgt_bool_true. reflexivity.
Qed.

Lemma is_active_invalid (pos : Position) : is_active pos = false <-> invalid pos.
Proof.
  unfold is_active, invalid, Qgt_bool.
  rewrite andb_false_iff, !negb_false_iff, !Qle_bool_iff. reflexivity.
Qed.

Lemma find_active_None (positions : list Position) :
  find_active positions = None <-> Forall invalid positions.
Proof.
  induction positions as [|pos rest IH]; cbn.
  - split; [constructor | reflexivity].
  - destruct (is_active pos) eqn:Hact.
    + split; [discriminate|]. intros Hall. inversion Hall as [|? ? Hinv _]; subst.
      apply is_active_invalid in Hinv. congruence.
    + rewrite IH. split.
      * intros Hall. constructor; [apply is_active_invalid; exact Hact | exact Hall].
      * intros Hall. inversion Hall; assumption.
Qed.

Lemma find_active_Some (positions : list Position) (pos : Position) :
  find_active positions = Some pos <-> first_valid positions pos.
Proof.
  induction positions as [|p rest IH]; cbn.
  - split; [discriminate|].
    intros (before & after & Heq & _). destruct before; discriminate.
  - destruct (is_active p) eqn:Hact.
    + split.
      * intros [= ->]. exists [], rest. repeat split.
        -- constructor.
        -- apply is_active_valid in Hact. apply Hact.
        -- apply is_active_valid in Hact. apply Hact.
      * intros (before & after & Heq & Hbefore & _).
        destruct before as [|q before]; cbn in Heq.
        -- congruence.
        -- injection Heq as -> _. inversion Hbefore as [|? ? Hinv _]; subst.
           apply is_active_invalid in Hinv. congruence.
    + rewrite IH. split.
      * intros (before & after & -> & Hbefore & Hvalid).
        exists (p :: before), after. repeat split; try apply Hvalid.
        constructor; [apply is_active_invalid; exact Hact | exact Hbefore].
      * intros (before & after & Heq & Hbefore & Hvalid).
        destruct before as [|q before]; cbn in Heq.
        -- injection Heq as -> _. apply is_active_valid in Hvalid. congruence.
        -- injection Heq as -> ->. exists before, after.
           repeat split; try apply Hvalid. inversion Hbefore; assumption.
Qed.

Lemma differs_false (token_id : string) (current : option string) :
  differs token_id current = false <-> current = Some token_id.
Proof.
  destruct current as [id|]; cbn.
  - rewrite negb_false_iff, String.eqb_eq. split; congruence.
  - split; discriminate.
Qed.

Lemma differs_true (token_id : string) (current : option string) :
  differs token_id current = true <-> current <> Some token_id.
Proof.
  rewrite <- not_false_iff_true, differs_false. reflexivity.
Qed.

(** The rule of the tracker in the spec's words: an empty snapshot is
    [NoPositions]; a non-empty snapshot whose entries all have
    [current_price <= 0] or [entry_price <= 0] is [NoValidPosition];
    otherwise the first valid entry in venue order is selected, as
    [NewPosition] when its asset id differs from the tracked one and as
    [SamePosition] when it matches. *)
Lemma classify_rule (positions : list Position) (previously_tracked : option string) :
  (classify positions previously_tracked = NoPositions <-> positions = [])
  /\ (classify positions previously_tracked = NoValidPosition
      <-> positions <> [] /\ Forall invalid positions)
  /\ (forall pos,
        classify positions previously_tracked = NewPosition pos
        <-> first_valid positions pos /\ previously_tracked <> Some (pos_asset pos))
  /\ (forall pos,
        classify positions previously_tracked = SamePosition pos
        <-> first_valid positions pos /\ previously_tracked = Some (pos_asset pos)).
Proof.
  unfold classify.
  destruct positions as [|p rest].
  - split; [tauto | split; [|split]].
    + split; [discriminate | intros [Hne _]; congruence].
    + intros pos. split; [discriminate|].
      intros [(before & after & Heq & _) _]. destruct before; discriminate.
    + intros pos. split; [discriminate|].
      intros [(before & after & Heq & _) _]. destruct before; discriminate.
  - pose proof (find_active_None (p :: rest)) as HNone.
    pose proof (find_active_Some (p :: rest)) as HSome.
    destruct (find_active (p :: rest)) as [found|] eqn:Hfind.
    + assert (Hfirst : forall pos, first_valid (p :: rest) pos -> pos = found).
      { intros pos Hpos. apply HSome in Hpos. congruence. }
      assert (Hfound : first_valid (p :: rest) found) by (apply HSome; reflexivity).
      assert (Hnot : ~ Forall invalid (p :: rest)).
      { intros Hall. apply HNone in Hall. discriminate. }
      pose proof (differs_true (pos_asset found) previously_tracked) as Ht.
      pose proof (differs_false (pos_asset found) previously_tracked) as Hf.
      destruct (differs (pos_asset found) previously_tracked).
      * split; [split; discriminate | split; [|split]].
        -- split; [discriminate | tauto].
        -- intros pos. split.
           ++ intros [= <-]. split; [exact Hfound | apply Ht; reflexivity].
           ++ intros [Hpos _]. rewrite (Hfirst _ Hpos). reflexivity.
        -- intros pos. split; [discriminate|].
           intros [Hpos Hsame]. rewrite (Hfirst _ Hpos) in Hsame.
           apply Hf in Hsame. discriminate.
      * split; [split; discriminate | split; [|split]].
        -- split; [discriminate | tauto].
        -- intros pos. split; [discriminate|].
           intros [Hpos Hnew]. rewrite (Hfirst _ Hpos) in Hnew.
           exfalso. apply Hnew. apply Hf. reflexivity.
        -- intros pos. split.
           ++ intros [= <-]. split; [exact Hfound | apply Hf; reflexivity].
           ++ intros [Hpos _]. rewrite (Hfirst _ Hpos). reflexivity.
    + split; [split; discriminate | split; [|split]].
      * split; [intros _|reflexivity].
        split; [discriminate | apply HNone; reflexivity].
      * intros pos. split; [discriminate|].
        intros [Hpos _]. apply HSome in Hpos. discriminate.
      * intros pos. split; [discriminate|].
        intros [Hpos _]. apply HSome in Hpos. discriminate.
Qed.

(** ** Monitoring loop *)

Section MonitorFacts.
Context {W : Type}.
Variable venue : Venue W.
Variable cfg : Config.

(** What a classification says about the tests of the loop body. *)
Lemma classify_cases (positions : list Position) (id : option string) :
  match classify positions id with
  | NoPositions => positions = []
  | NoValidPosition => positions <> [] /\ find_active positions = None
  | NewPosition pos =>
      positions <> [] /\ find_active positions = Some pos
      /\ differs (pos_asset pos) id = true
  | SamePosition pos =>
      positions <> [] /\ find_active positions = Some pos
      /\ differs (pos_asset pos) id = false
  end.
Proof.
  unfold classify. destruct positions as [|p rest]; [reflexivity|].
  destruct (find_active (p :: rest)) as [pos|]; [|split; [discriminate|reflexivity]].
  destruct (differs (pos_asset pos) id) eqn:Hd; repeat split; try discriminate;
    assumption.
Qed.

(** An [except] clause leaves the tracking variables alone. *)
Lemma handle_keeps_tracking (s : LoopState) (w : W) (pre : list Event) (e : Exn) :
  current_position_id (next_state (handle cfg s w pre e)) = current_position_id s
  /\ tracked_position (next_state (handle cfg s w pre e)) = tracked_position s.
Proof. unfold handle. destruct (exn_class e); split; reflexivity. Qed.

Lemma handle_caught (s : LoopState) (w : W) (pre : list Event) (e : Exn) :
  caught (handle cfg s w pre e) = Some e.
Proof. unfold handle. destruct (exn_class e); reflexivity. Qed.

Lemma handle_emitted (s : LoopState) (w : W) (pre : list Event) (e : Exn) :
  exists post, emitted (handle cfg s w pre e) = pre ++ post
               /\ count is_closing post = 0
               /\ count is_post_order post = 0
               /\ count is_notify_new post = 0
               /\ count is_notify_closed post = 0.
Proof.
  unfold handle.
  destruct (exn_class e); cbn [emitted]; eexists; (split; [reflexivity|]).
  all: try match goal with
           | |- context [if ?c then _ else _] => destruct c
           end.
  all: cbn; auto.
Qed.

(** The tracking variables after a position has been selected. *)
Lemma selection_tracked (n : nat) (pos : Position) (current : option string) :
  tracking_invariant
    (mkState n
       (if differs (pos_asset pos) current then Some (pos_asset pos) else current)
       (Some (mkTracked (pos_title pos) (pos_outcome pos) (pos_avgPrice pos)
                        (pos_curPrice pos) (pos_size pos) (pos_asset pos)))).
Proof.
  intros id. cbn. destruct (differs (pos_asset pos) current) eqn:Hd.
  - intros [= <-]. eexists. split; reflexivity.
  - apply differs_false in Hd. rewrite Hd. intros [= <-].
    eexists. split; reflexivity.
Qed.

Lemma cycle_preserves_invariant (s : LoopState) (w : W) :
  tracking_invariant s -> tracking_invariant (next_state (cycle venue cfg s w)).
Proof.
  intros Hinv. unfold cycle.
  destruct (get_positions venue w) as [w1 [positions|e]].
  - destruct positions as [|p rest].
    + destruct (current_position_id s); intros id; cbn; discriminate.
    + destruct (find_active (p :: rest)) as [pos|].
      * destruct (calculate_stop_loss_trigger _ _ _) as [should_trigger drop].
        destruct should_trigger; [|apply selection_tracked].
        destruct (close_position_default _ _ _ _) as [[w2 evs] [result|e]].
        -- destruct (report_success result); [|apply selection_tracked].
           intros id; cbn; discriminate.
        -- intros id.
           match goal with
           | |- context [handle cfg ?st ?ww ?pre ?ee] =>
               destruct (handle_keeps_tracking st ww pre ee) as [-> ->]
           end.
           apply (selection_tracked (consecutive_errors s)).
      * destruct (current_position_id s) eqn:Hid; [intros id; cbn; discriminate|].
        exact Hinv.
  - intros id. destruct (handle_keeps_tracking s w1 [] e) as [-> ->]. apply Hinv.
Qed.

Lemma reachable_invariant (s : LoopState) (w : W) :
  Reachable venue cfg s w -> tracking_invariant s.
Proof.
  induction 1 as [w|s w _ IH _].
  - intros id. cbn. discriminate.
  - apply cycle_preserves_invariant. exact IH.
Qed.

(** C8. On a cycle classified [NoPositions] or [NoValidPosition]: if a
    position was tracked, the loop sends one position-closed notification
    carrying the remembered snapshot of that position, and both the tracked
    id and the snapshot are emptied; if nothing was tracked, no
    position-closed notification is sent. *)
Theorem C8_position_closed (s : LoopState) (w w1 : W) (positions : list Position) :
  Reachable venue cfg s w ->
  get_positions venue w = (w1, Returns positions) ->
  classify positions (current_position_id s) = NoPositions
  \/ classify positions (current_position_id s) = NoValidPosition ->
  let r := cycle venue cfg s w in
  (forall id, current_position_id s = Some id ->
     exists t reason,
       tracked_position s = Some t /\ tp_token_id t = id
       /\ emitted r
          = [EvNotifyPositionClosed (tp_title t) (tp_outcome t) (tp_entry_price t)
                                    (tp_last_price t) (tp_size t) reason;
             EvSleep (poll_interval cfg)]
       /\ current_position_id (next_state r) = None
       /\ tracked_position (next_state r) = None)
  /\ (current_position_id s = None ->
      count is_notify_closed (emitted r) = 0
      /\ current_position_id (next_state r) = None).
Proof.
  intros Hreach Hfetch Hclass. apply reachable_invariant in Hreach.
  cbv zeta. unfold cycle. rewrite Hfetch.
  pose proof (classify_cases positions (current_position_id s)) as Hcases.
  destruct Hclass as [Hc | Hc]; rewrite Hc in Hcases.
  - subst positions. split.
    + intros id Hid. destruct (Hreach id Hid) as (t & Ht & Htok).
      rewrite Hid, Ht. cbn. exists t, "Position Closed". repeat split; assumption.
    + intros Hid. rewrite Hid. cbn. split; reflexivity.
  - destruct Hcases as [Hne Hfind].
    destruct positions as [|p rest]; [congruence|]. rewrite Hfind. split.
    + intros id Hid. destruct (Hreach id Hid) as (t & Ht & Htok).
      rewrite Hid, Ht. cbn. exists t, "Market Resolved". repeat split; assumption.
    + intros Hid. rewrite Hid. cbn. split; [reflexivity | exact Hid].
Qed.

(** C10. A cycle classified [NoValidPosition] leaves the consecutive-failure
    counter as it was; a cycle classified [NoPositions], and every cycle
    that selects a valid position and completes without raising, resets it
    to 0. *)
Theorem C10_failure_counter (s : LoopState) (w w1 : W) (positions : list Position) :
  get_positions venue w = (w1, Returns positions) ->
  let r := cycle venue cfg s w in
  match classify positions (current_position_id s) with
  | NoValidPosition => consecutive_errors (next_state r) = consecutive_errors s
  | NoPositions => consecutive_errors (next_state r) = 0
  | NewPosition _ | SamePosition _ =>
      caught r = None -> consecutive_errors (next_state r) = 0
  end.
Proof.
  intros Hfetch. cbv zeta. unfold cycle. rewrite Hfetch.
  pose proof (classify_cases positions (current_position_id s)) as Hcases.
  assert (Hvalid : forall pos, positions <> [] -> find_active positions = Some pos ->
            caught (cycle venue cfg s w) = None ->
            consecutive_errors (next_state (cycle venue cfg s w)) = 0).
  { intros pos Hne Hfind. unfold cycle. rewrite Hfetch.
    destruct positions as [|p rest]; [congruence|]. rewrite Hfind.
    destruct (calculate_stop_loss_trigger _ _ _) as [should_trigger drop].
    destruct should_trigger; [|reflexivity].
    destruct (close_position_default _ _ _ _) as [[w2 evs] [result|e]].
    - destruct (report_success result); reflexivity.
    - rewrite handle_caught. discriminate. }
  unfold cycle in Hvalid. rewrite Hfetch in Hvalid.
  destruct (classify positions (current_position_id s)) as [| |pos|pos].
  - subst positions. destruct (current_position_id s); reflexivity.
  - destruct Hcases as [Hne Hfind].
    destruct positions as [|p rest]; [congruence|]. rewrite Hfind.
    destruct (current_position_id s); reflexivity.
  - destruct Hcases as (Hne & Hfind & _). exact (Hvalid pos Hne Hfind).
  - destruct Hcases as (Hne & Hfind & _). exact (Hvalid pos Hne Hfind).
Qed.



(** The events of the executor as the loop calls it. *)
Lemma default_call_events (token_id : string) (size : Q) (w w2 : W)
    (evs : list Event) (out : Outcome (gmap string PyVal)) :
  close_position_default venue token_id size w = (w2, evs, out) ->
  count is_closing evs = 1 /\ count is_post_order evs <= 1
  /\ count is_notify_new evs = 0.
Proof.
  intros Hcall. unfold close_position_default, default_signature_type in Hcall.
  assert (H1 : 2%Z <> 1%Z) by discriminate.
  assert (H0 : 2%Z <> 0%Z) by discriminate.
  destruct (close_position_terminal venue token_id size 2%Z w H1 H0) as [Hc Hm].
  destruct (close_position_silent venue token_id size 2%Z w) as (Hn & _ & _).
  rewrite Hcall in Hc, Hm, Hn. cbn in Hc, Hm, Hn.
  repeat split; try assumption.
  rewrite count_post_order_methods. destruct Hm as [-> | ->]; cbn; lia.
Qed.

(** What a pass that selects a position emits and remembers. *)
Lemma selecting_pass (s : LoopState) (w w1 : W) (positions : list Position)
    (pos : Position) :
  get_positions venue w = (w1, Returns positions) ->
  find_active positions = Some pos ->
  let r := cycle venue cfg s w in
  let trigger :=
    (calculate_stop_loss_trigger (pos_avgPrice pos) (pos_curPrice pos)
                                 (stop_loss_pct cfg)).1 in
  (exists post,
     emitted r
     = (if differs (pos_asset pos) (current_position_id s)
        then [EvNotifyNewPosition (pos_title pos) (pos_outcome pos) (pos_avgPrice pos)
                                  (pos_size pos) (stop_loss_pct cfg)]
        else []) ++ post
     /\ count is_notify_new post = 0
     /\ count is_closing post = (if trigger then 1 else 0))
  /\ tracked_position (next_state r) = Some (snapshot_of pos).
Proof.
  intros Hfetch Hfind. cbv zeta. unfold cycle. rewrite Hfetch.
  destruct positions as [|p rest]; [discriminate|]. rewrite Hfind.
  destruct (calculate_stop_loss_trigger _ _ _) as [should_trigger drop].
  cbn [fst]. destruct should_trigger.
  - destruct (close_position_default _ _ _ _) as [[w2 evs] out] eqn:Hcall.
    destruct (default_call_events _ _ _ _ _ _ Hcall) as (Hclosing & _ & Hnew).
    destruct out as [result|e].
    + destruct (report_success result); cbn [emitted next_state tracked_position];
        (split; [|reflexivity]); eexists; (split; [reflexivity|]);
        rewrite !count_app, Hclosing, Hnew; split; reflexivity.
    + match goal with
      | |- context [handle cfg ?st ?ww ?pre ?ee] =>
          destruct (handle_keeps_tracking st ww pre ee) as [_ ->];
          destruct (handle_emitted st ww pre ee) as (post & -> & Hc & _ & Hn & _)
      end.
      split; [|reflexivity]. exists (evs ++ post). rewrite <- app_assoc.
      split; [reflexivity|]. rewrite !count_app, Hclosing, Hnew, Hc, Hn.
      split; reflexivity.
  - cbn [emitted next_state tracked_position]. split; [|reflexivity].
    eexists. split; [reflexivity|]. split; reflexivity.
Qed.





(** The loop acts on the tracker's classification: the new-position
    notification is sent on the cycles classified [NewPosition], and on no
    others. *)
Lemma new_position_notified (s : LoopState) (w w1 : W) (positions : list Position) :
  get_positions venue w = (w1, Returns positions) ->
  count is_notify_new (emitted (cycle venue cfg s w))
  = match classify positions (current_position_id s) with
    | NewPosition _ => 1
    | _ => 0
    end.
Proof.
  intros Hfetch. unfold classify, cycle. rewrite Hfetch.
  destruct positions as [|p rest].
  - destruct (current_position_id s); cbn [emitted]; [|reflexivity].
    rewrite count_app. destruct (tracked_position s); reflexivity.
  - destruct (find_active (p :: rest)) as [pos|].
    + assert (Hnew : forall ev : Event,
                is_notify_new ev = true ->
                count is_notify_new
                  (if differs (pos_asset pos) (current_position_id s)
                   then [ev] else [])
                = match (if differs (pos_asset pos) (current_position_id s)
                         then NewPosition pos else SamePosition pos) with
                  | NewPosition _ => 1
                  | _ => 0
                  end).
      { intros ev Hev.
        destruct (differs (pos_asset pos) (current_position_id s)); cbn;
          rewrite ?Hev; reflexivity. }
      destruct (calculate_stop_loss_trigger _ _ _) as [should_trigger drop].
      destruct should_trigger.
      * destruct (close_position_default _ _ _ _) as [[w2 evs] out] eqn:Hcall.
        destruct (default_call_events _ _ _ _ _ _ Hcall) as (_ & _ & Hexec).
        destruct out as [result|e].
        -- destruct (report_success result); cbn [emitted];
             rewrite !count_app, Hexec, Hnew by reflexivity; cbn; lia.
        -- match goal with
           | |- context [handle cfg ?st ?ww ?pre ?ee] =>
               destruct (handle_emitted st ww pre ee) as (post & -> & _ & _ & Hn & _)
           end.
           rewrite !count_app, Hexec, Hn, Hnew by reflexivity. lia.
      * cbn [emitted]. rewrite count_app, Hnew by reflexivity. cbn. lia.
    + destruct (current_position_id s); cbn [emitted]; [|reflexivity].
      rewrite count_app. destruct (tracked_position s); reflexivity.
Qed.

(** C3. For every snapshot the loop fetches and every previously tracked
    asset id, the tracker classifies in this precedence, and the pass acts
    on it.  An empty snapshot is [NoPositions]: the pass takes the
    empty-snapshot branch (any tracked position is reported closed as
    "Position Closed").  A non-empty snapshot whose entries all have
    [current_price <= 0] or [entry_price <= 0] is [NoValidPosition]: the
    pass takes the market-resolved branch.  Otherwise the first valid entry
    in venue order is selected and remembered: as [NewPosition] when its
    asset id differs from the tracked one, and then the pass opens with the
    new-position notification for that entry; as [SamePosition] when it
    matches, and then no new-position notification is sent. *)
Theorem C3_classification (s : LoopState) (w w1 : W) (positions : list Position) :
  get_positions venue w = (w1, Returns positions) ->
  let previously_tracked := current_position_id s in
  let r := cycle venue cfg s w in
  (classify positions previously_tracked = NoPositions <-> positions = [])
  /\ (classify positions previously_tracked = NoValidPosition
      <-> positions <> [] /\ Forall invalid positions)
  /\ (forall pos,
        classify positions previously_tracked = NewPosition pos
        <-> first_valid positions pos /\ previously_tracked <> Some (pos_asset pos))
  /\ (forall pos,
        classify positions previously_tracked = SamePosition pos
        <-> first_valid positions pos /\ previously_tracked = Some (pos_asset pos))
  /\ match classify positions previously_tracked with
     | NoPositions =>
         r = match previously_tracked with
             | Some _ =>
                 mkCycle (mkState 0 None None) w1
                         (notify_closed (tracked_position s) "Position Closed"
                          ++ [EvSleep (poll_interval cfg)])
                         None false
             | None =>
                 mkCycle (mkState 0 None (tracked_position s)) w1
                         [EvSleep (poll_interval cfg)] None false
             end
     | NoValidPosition =>
         r = match previously_tracked with
             | Some _ =>
                 mkCycle (mkState (consecutive_errors s) None None) w1
                         (notify_closed (tracked_position s) "Market Resolved"
                          ++ [EvSleep (poll_interval cfg)])
                         None false
             | None => mkCycle s w1 [EvSleep (poll_interval cfg)] None false
             end
     | NewPosition pos =>
         (exists post,
            emitted r
            = EvNotifyNewPosition (pos_title pos) (pos_outcome pos) (pos_avgPrice pos)
                                  (pos_size pos) (stop_loss_pct cfg) :: post
            /\ count is_notify_new post = 0)
         /\ tracked_position (next_state r) = Some (snapshot_of pos)
     | SamePosition pos =>
         count is_notify_new (emitted r) = 0
         /\ tracked_position (next_state r) = Some (snapshot_of pos)
     end.
Proof.
  intros Hfetch. cbv zeta.
  destruct (classify_rule positions (current_position_id s)) as (H1 & H2 & H3 & H4).
  split; [exact H1 | split; [exact H2 | split; [exact H3 | split; [exact H4|]]]].
  pose proof (classify_cases positions (current_position_id s)) as Hcases.
  destruct (classify positions (current_position_id s)) as [| |pos|pos].
  - subst positions. unfold cycle. rewrite Hfetch. reflexivity.
  - destruct Hcases as [Hne Hfind]. unfold cycle. rewrite Hfetch.
    destruct positions as [|p rest]; [congruence|]. rewrite Hfind. reflexivity.
  - destruct Hcases as (_ & Hfind & Hd).
    destruct (selecting_pass s w w1 positions pos Hfetch Hfind)
      as [(post & Hev & Hnew & _) Htracked].
    rewrite Hd in Hev. split; [|exact Htracked].
    exists post. split; [exact Hev | exact Hnew].
  - destruct Hcases as (_ & Hfind & Hd).
    destruct (selecting_pass s w w1 positions pos Hfetch Hfind)
      as [(post & Hev & Hnew & _) Htracked].
    rewrite Hd in Hev. split; [|exact Htracked].
    rewrite Hev. exact Hnew.
Qed.

(** While the venue keeps serving a snapshot whose selected position is the
    tracked one and whose prices do not trigger, the loop only sleeps: [n]
    cycles emit [n] sleeps and the tracked id stays. *)
Lemma idle_same_position_run (n : nat) (s : LoopState) (w : W)
    (positions : list Position) (pos : Position) :
  fetch_serves venue positions n w ->
  classify positions (current_position_id s) = SamePosition pos ->
  (calculate_stop_loss_trigger (pos_avgPrice pos) (pos_curPrice pos)
                               (stop_loss_pct cfg)).1 = false ->
  (run venue cfg n s w).1.2 = List.repeat (EvSleep (poll_interval cfg)) n
  /\ current_position_id (run venue cfg n s w).1.1.1 = current_position_id s.
Proof.
  intros Hserve Hclass Hquiet.
  pose proof (classify_cases positions (current_position_id s)) as Hcases.
  rewrite Hclass in Hcases. destruct Hcases as (Hne & Hfind & Hsame).
  revert s w Hserve Hclass Hsame. induction n as [|k IH]; intros s w Hserve Hclass Hsame.
  - split; reflexivity.
  - destruct Hserve as [Hfetch Hrest]. cbn [run]. unfold cycle.
    destruct (get_positions venue w) as [w1 fetched]. cbn in Hfetch, Hrest.
    subst fetched.
    destruct positions as [|p rest]; [congruence|]. rewrite Hfind, Hsame.
    destruct (calculate_stop_loss_trigger _ _ _) as [should_trigger drop].
    cbn in Hquiet. subst should_trigger.
    cbn [stopped next_state next_world emitted].
    match goal with
    | |- context [run venue cfg k ?st w1] =>
        specialize (IH st w1 Hrest Hclass Hsame);
        destruct (run venue cfg k st w1) as [[[s2 w2] evs2] b2]
    end.
    cbn [fst snd current_position_id] in IH |- *. destruct IH as [-> ->].
    split; reflexivity.
Qed.

(** A timeout is counted but never reported. *)
Lemma timeout_not_reported (s : LoopState) (w w1 : W) (e : Exn) :
  get_positions venue w = (w1, Raises e) ->
  exn_class e = Timeout ->
  count is_notify_error (emitted (cycle venue cfg s w)) = 0
  /\ consecutive_errors (next_state (cycle venue cfg s w)) = S (consecutive_errors s).
Proof.
  intros Hfetch Hclass. unfold cycle, handle. rewrite Hfetch, Hclass.
  split; reflexivity.
Qed.

End MonitorFacts.

(** The spec's third end-to-end scenario: snapshots [[]], [[B]], [[]] give one
    new-position and one position-closed notification. *)
Example scenario_open_then_close :
  (run scenario_venue cfg10 3 initial_state 0).1.2
  = [EvSleep 30;
     EvNotifyNewPosition "Market B" "NO" (1 # 2) 10 10; EvSleep 30;
     EvNotifyPositionClosed "Market B" "NO" (1 # 2) (1 # 2) 10 "Position Closed";
     EvSleep 30].
Proof. reflexivity. Qed.



(** At the second fetch of the scenario the snapshot [[position_B]] finds
    nothing tracked: [position_B] is classified as new and announced. *)
Lemma C3_classification_witness :
  exists post,
    emitted (cycle scenario_venue cfg10 initial_state 1)
    = EvNotifyNewPosition "Market B" "NO" (1 # 2) 10 10 :: post
    /\ count is_notify_new post = 0.
Proof.
  destruct (C3_classification scenario_venue cfg10 initial_state 1 2 [position_B]
              eq_refl) as (_ & _ & _ & _ & Hpass).
  destruct Hpass as [Hev _]. exact Hev.
Defined.

Lemma C8_position_closed_witness :
  exists reason,
    emitted (cycle scenario_venue cfg10
               (next_state (cycle scenario_venue cfg10
                              (next_state (cycle scenario_venue cfg10 initial_state 0)) 1))
               2)
    = [EvNotifyPositionClosed "Market B" "NO" (1 # 2) (1 # 2) 10 reason; EvSleep 30].
Proof.
  assert (Hreach : Reachable scenario_venue cfg10
            (next_state (cycle scenario_venue cfg10
                           (next_state (cycle scenario_venue cfg10 initial_state 0)) 1))
            2).
  { apply (reach_cycle scenario_venue cfg10
             (next_state (cycle scenario_venue cfg10 initial_state 0)) 1);
      [|reflexivity].
    apply (reach_cycle scenario_venue cfg10 initial_state 0); [|reflexivity].
    apply reach_start. }
  destruct (C8_position_closed scenario_venue cfg10 _ 2 3 [] Hreach eq_refl
              (or_introl eq_refl)) as [Htracked _].
  destruct (Htracked "B" eq_refl) as (t & reason & Ht & _ & Hev & _).
  injection Ht as <-. exists reason. exact Hev.
Defined.

Lemma C10_failure_counter_witness :
  consecutive_errors (next_state (cycle scenario_venue cfg10 (mkState 2 None None) 0)) = 0.
Proof.
  exact (C10_failure_counter scenario_venue cfg10 (mkState 2 None None) 0 1 [] eq_refl).
Defined.





(* ===================================================================== *)
(** * Part III: further properties of the code                            *)
(* ===================================================================== *)

(** ** Trigger calculator *)

(** X1. The trigger is monotone: once it fires, it also fires at any lower
    current price and for any lower threshold. *)
Theorem trigger_monotone (entry_price current_price lower_price : Q)
    (stop_loss_pct lower_pct : Q) :
  (lower_price <= current_price)%Q ->
  (lower_pct <= stop_loss_pct)%Q ->
  (calculate_stop_loss_trigger entry_price current_price stop_loss_pct).1 = true ->
  (calculate_stop_loss_trigger entry_price lower_price lower_pct).1 = true.
Proof.
  intros Hprice Hpct. unfold calculate_stop_loss_trigger.
  destruct (Qle_bool entry_price 0) eqn:Hentry; [discriminate|].
  apply Qle_bool_false in Hentry. cbn. rewrite !Qle_bool_iff.
  assert (Hinv : (0 < / entry_price)%Q) by (apply Qinv_lt_0_compat; exact Hentry).
  unfold Qdiv. set (k := (/ entry_price)%Q) in *. intros Hfire. nra.
Qed.

Lemma trigger_monotone_witness :
  (calculate_stop_loss_trigger (65 # 100) (50 # 100) 5).1 = true.
Proof.
  apply (trigger_monotone (65 # 100) (55 # 100) (50 # 100) 10 5).
  - discriminate.
  - discriminate.
  - reflexivity.
Defined.

(** X2. While the current price is not negative, the loss percentage is at
    most 100, so a threshold above 100 never fires. *)
Theorem drop_at_most_100 (entry_price current_price stop_loss_pct : Q) :
  (0 <= current_price)%Q ->
  ((calculate_stop_loss_trigger entry_price current_price stop_loss_pct).2 <= 100)%Q
  /\ ((100 < stop_loss_pct)%Q ->
      (calculate_stop_loss_trigger entry_price current_price stop_loss_pct).1 = false).
Proof.
  intros Hcur. unfold calculate_stop_loss_trigger.
  destruct (Qle_bool entry_price 0) eqn:Hentry; cbn.
  - split; [discriminate | reflexivity].
  - apply Qle_bool_false in Hentry.
    assert (Hinv : (0 < / entry_price)%Q) by (apply Qinv_lt_0_compat; exact Hentry).
    assert (Hone : (entry_price * / entry_price == 1)%Q).
    { apply Qmult_inv_r. intros H0. rewrite H0 in Hentry. discriminate. }
    assert (Hdrop : ((entry_price - current_price) / entry_price * 100 <= 100)%Q).
    { unfold Qdiv. set (k := (/ entry_price)%Q) in *.
      assert (Hck : (0 <= current_price * k)%Q).
      { apply Qmult_le_0_compat; [exact Hcur | apply Qlt_le_weak; exact Hinv]. }
      assert (Hexp : ((entry_price - current_price) * k * 100
                      == (entry_price * k - current_price * k) * 100)%Q) by ring.
      rewrite Hexp, Hone. lra. }
    split; [exact Hdrop|].
    intros Hpct. apply Qle_bool_false.
    eapply Qle_lt_trans; [exact Hdrop | exact Hpct].
Qed.

Lemma drop_at_most_100_witness :
  (calculate_stop_loss_trigger (65 # 100) 0 101).1 = false.
Proof.
  apply (drop_at_most_100 (65 # 100) 0 101); [discriminate | reflexivity].
Defined.

(** ** Liquidation executor *)

Lemma report_success_failure (msg : string) : report_success (failure msg) = false.
Proof.
  unfold report_success, failure, dict_get.
  rewrite lookup_insert_eq. reflexivity.
Qed.

Lemma orders_app (a b : list Event) : orders (a ++ b) = orders a ++ orders b.
Proof.
  induction a as [|ev a IH]; [reflexivity|].
  destruct ev; cbn; rewrite ?IH; reflexivity.
Qed.

Section ExecutorMore.
Context {W : Type}.
Variable venue : Venue W.

(** X4. A submission error that mentions "404" or "No orderbook exists" ends
    the call at once with the no-orderbook failure, under every signature
    type and even when the message also mentions an invalid signature: it
    never escalates. *)
Theorem orderbook_error_is_final (token_id : string) (size : Q) (signature_type : Z)
    (w w1 w2 : W) (e : Exn) :
  get_clob_client venue signature_type w = (w1, None) ->
  (0 < py_round2 size)%Q ->
  submit_order venue signature_type token_id (py_round2 size) w1 = (w2, Raises e) ->
  exn_class e <> KeyboardInterrupt ->
  contains "404" (exn_msg e) = true
  \/ contains "No orderbook exists" (exn_msg e) = true ->
  close_position venue token_id size signature_type w
  = (w2,
     [EvClosing token_id size signature_type; EvDeriveCreds signature_type;
      EvPostOrder signature_type token_id (py_round2 size)],
     Returns (failure "No active orderbook for this market")).
Proof.
  intros Hclient Hsize Hsubmit Hclass Hmsg. apply Qle_bool_false in Hsize.
  assert (Hc : classify_error e = NoOrderbook).
  { unfold classify_error.
    assert (Hor : contains "No orderbook exists" (exn_msg e)
                  || contains "404" (exn_msg e) = true).
    { apply orb_true_iff. tauto. }
    destruct (exn_class e); try contradiction; cbv zeta; rewrite Hor; reflexivity. }
  funelim (close_position venue token_id size signature_type w);
    try congruence;
    repeat match goal with
           | H1 : ?x = _, H2 : ?x = _ |- _ =>
               rewrite H1 in H2; inversion H2; subst; clear H2
           end;
    congruence.
Qed.

(** X5. Whenever a call returns a result that the loop would report as a
    success, that result is the venue's own response to an order the call
    submitted for its token at the rounded size: no result the executor
    builds itself counts as a success. *)
Theorem success_comes_from_venue (token_id : string) (size : Q) (signature_type : Z)
    (w : W) (result : gmap string PyVal) :
  (close_position venue token_id size signature_type w).2 = Returns result ->
  report_success result = true ->
  exists signature_type' w1 w2,
    submit_order venue signature_type' token_id (py_round2 size) w1
    = (w2, Returns result)
    /\ In signature_type'
          (methods_tried (close_position venue token_id size signature_type w).1.2).
Proof.
  funelim (close_position venue token_id size signature_type w);
    try (rewrite after_events, methods_tried_app);
    cbn [fst snd methods_tried]; intros Hret Hsuccess;
    try discriminate;
    try (injection Hret as <-; rewrite report_success_failure in Hsuccess;
         discriminate).
  - injection Hret as <-. eexists _, _, _. split; [eassumption|]. left. reflexivity.
  - destruct (close_position venue token_id size 0 w2) as [[w3 evs] out] eqn:Hrec.
    cbn in Hret. subst out.
    destruct (H result eq_refl Hsuccess) as (sig' & wa & wb & Hsub & Hin).
    exists sig', wa, wb. split; [exact Hsub|]. right. exact Hin.
  - destruct (close_position venue token_id size 2 w2) as [[w3 evs] out] eqn:Hrec.
    cbn in Hret. subst out.
    destruct (H result eq_refl Hsuccess) as (sig' & wa & wb & Hsub & Hin).
    exists sig', wa, wb. split; [exact Hsub|]. right. exact Hin.
Qed.


End ExecutorMore.

Lemma orderbook_error_is_final_witness :
  close_position no_orderbook_venue "A" 10 1%Z tt
  = (tt, [EvClosing "A" 10 1; EvDeriveCreds 1; EvPostOrder 1 "A" (py_round2 10)],
     Returns (failure "No active orderbook for this market")).
Proof.
  apply (orderbook_error_is_final no_orderbook_venue "A" 10 1%Z tt tt tt
           (mkExn OtherException "404: invalid signature")).
  - reflexivity.
  - reflexivity.
  - reflexivity.
  - discriminate.
  - left. reflexivity.
Defined.

Lemma success_comes_from_venue_witness :
  exists signature_type' w1 w2,
    submit_order quiet_venue signature_type' "A" (py_round2 10) w1
    = (w2, Returns filled)
    /\ In signature_type'
          (methods_tried (close_position quiet_venue "A" 10 2%Z tt).1.2).
Proof.
  apply (success_comes_from_venue quiet_venue "A" 10 2%Z tt filled); reflexivity.
Defined.

(** ** Monitoring loop *)


Lemma find_active_is_valid (positions : list Position) (pos : Position) :
  find_active positions = Some pos -> valid pos.
Proof.
  intros Hfind. apply find_active_Some in Hfind.
  destruct Hfind as (before & rest & _ & _ & Hvalid). exact Hvalid.
Qed.

(** The loss percentage of a valid position stays below every threshold
    above 100. *)
Lemma valid_drop_below_threshold (pos : Position) (stop_loss_pct : Q) :
  valid pos -> (100 < stop_loss_pct)%Q ->
  (calculate_stop_loss_trigger (pos_avgPrice pos) (pos_curPrice pos) stop_loss_pct).1
  = false.
Proof.
  intros [Hcur Hentry] Hpct. unfold calculate_stop_loss_trigger.
  pose proof Hentry as Hb. apply Qle_bool_false in Hb. rewrite Hb. cbn.
  apply Qle_bool_false.
  assert (Hinv : (0 < / pos_avgPrice pos)%Q) by (apply Qinv_lt_0_compat; exact Hentry).
  assert (Hone : (pos_avgPrice pos * / pos_avgPrice pos == 1)%Q).
  { apply Qmult_inv_r. intros H0. rewrite H0 in Hentry. discriminate. }
  unfold Qdiv. set (k := (/ pos_avgPrice pos)%Q) in *.
  assert (Hck : (0 < pos_curPrice pos * k)%Q).
  { apply Qmult_lt_0_compat; assumption. }
  assert (Hexp : ((pos_avgPrice pos - pos_curPrice pos) * k * 100
                  == (pos_avgPrice pos * k - pos_curPrice pos * k) * 100)%Q) by ring.
  rewrite Hexp, Hone. lra.
Qed.

Section MonitorMore.
Context {W : Type}.
Variable venue : Venue W.
Variable cfg : Config.

Lemma handle_orders (s : LoopState) (w : W) (pre : list Event) (e : Exn) :
  orders (emitted (handle cfg s w pre e)) = orders pre.
Proof.
  unfold handle. destruct (exn_class e); cbn [emitted]; rewrite !orders_app.
  - cbn. apply app_nil_r.
  - destruct (MAX_RETRIES <=? S (consecutive_errors s))%nat; cbn; apply app_nil_r.
  - cbn. apply app_nil_r.
  - cbn. apply app_nil_r.
Qed.



End MonitorMore.

(** X8. The delay after the [n]-th consecutive failure is [5 n] seconds up to
    the twelfth failure and 60 seconds from then on: never under 5 seconds,
    never over 60, and never shorter than after the failure before. *)
Theorem backoff_bounds (n : nat) :
  1 <= n ->
  (5 <= backoff n)%Q /\ (backoff n <= 60)%Q
  /\ (n <= 12 -> (backoff n == 5 * inject_Z (Z.of_nat n))%Q)
  /\ (12 <= n -> (backoff n == 60)%Q)
  /\ (backoff n <= backoff (S n))%Q.
Proof.
  intros Hn. unfold backoff, RETRY_DELAY.
  assert (H1 : (1 <= inject_Z (Z.of_nat n))%Q).
  { change 1%Q with (inject_Z 1). rewrite <- Zle_Qle. lia. }
  assert (HS : (inject_Z (Z.of_nat (S n)) == inject_Z (Z.of_nat n) + 1)%Q).
  { rewrite Nat2Z.inj_succ. unfold Z.succ. rewrite inject_Z_plus. reflexivity. }
  assert (Hlow : n <= 12 -> (inject_Z (Z.of_nat n) <= 12)%Q).
  { intros H. change 12%Q with (inject_Z 12). rewrite <- Zle_Qle. lia. }
  assert (Hhigh : 12 <= n -> (12 <= inject_Z (Z.of_nat n))%Q).
  { intros H. change 12%Q with (inject_Z 12). rewrite <- Zle_Qle. lia. }
  set (q := inject_Z (Z.of_nat n)) in *.
  destruct (Q.min_spec (5 * q) 60) as [[Hlt ->] | [Hle ->]];
    destruct (Q.min_spec (5 * inject_Z (Z.of_nat (S n))) 60) as [[Hlt' ->] | [Hle' ->]];
    rewrite ?HS in *; repeat split; intros;
    try match goal with H : 12 <= n |- _ => specialize (Hhigh H) end;
    try match goal with H : n <= 12 |- _ => specialize (Hlow H) end;
    lra.
Qed.

Lemma backoff_bounds_witness : (backoff 13 == 60)%Q.
Proof.
  apply (backoff_bounds 13); lia.
Defined.

Section MonitorInvariants.
Context {W : Type}.
Variable venue : Venue W.
Variable cfg : Config.

(** X9. A failed snapshot fetch costs nothing but the counter: the tracked
    id and the remembered snapshot are kept, the executor is not entered and
    no order is submitted; the failure counter grows by one for a timeout or
    request error and is left alone otherwise. *)
Theorem fetch_failure_frame (s : LoopState) (w w1 : W) (e : Exn) :
  get_positions venue w = (w1, Raises e) ->
  let r := cycle venue cfg s w in
  current_position_id (next_state r) = current_position_id s
  /\ tracked_position (next_state r) = tracked_position s
  /\ count is_closing (emitted r) = 0
  /\ orders (emitted r) = []
  /\ consecutive_errors (next_state r)
     = match exn_class e with
       | Timeout | RequestException => S (consecutive_errors s)
       | _ => consecutive_errors s
       end.
Proof.
  intros Hfetch. cbv zeta. unfold cycle. rewrite Hfetch.
  destruct (handle_keeps_tracking cfg s w1 [] e) as [Hid Htracked].
  destruct (handle_emitted cfg s w1 [] e) as (post & Hev & Hc & _).
  split; [exact Hid | split; [exact Htracked | split; [|split]]].
  - rewrite Hev. exact Hc.
  - apply handle_orders.
  - unfold handle. destruct (exn_class e); reflexivity.
Qed.

(** The remembered snapshot always has a positive entry price and a positive
    last price: only valid positions are ever remembered. *)
Lemma reachable_tracked_valid (s : LoopState) (w : W) (t : Tracked) :
  Reachable venue cfg s w ->
  tracked_position s = Some t ->
  (0 < tp_entry_price t)%Q /\ (0 < tp_last_price t)%Q.
Proof.
  intros Hreach. revert t.
  induction Hreach as [w|s w _ IH _]; [discriminate|].
  intros t. unfold cycle.
  destruct (get_positions venue w) as [w1 [positions|e]].
  - destruct positions as [|p rest].
    + destruct (current_position_id s); cbn; [discriminate | apply IH].
    + destruct (find_active (p :: rest)) as [pos|] eqn:Hfind.
      * apply find_active_is_valid in Hfind. destruct Hfind as [Hcur Hentry].
        assert (Hsel : forall n id,
                  tracked_position
                    (mkState n id
                       (Some (mkTracked (pos_title pos) (pos_outcome pos)
                                (pos_avgPrice pos) (pos_curPrice pos)
                                (pos_size pos) (pos_asset pos)))) = Some t ->
                  (0 < tp_entry_price t)%Q /\ (0 < tp_last_price t)%Q).
        { intros n id [= <-]. cbn. split; assumption. }
        destruct (calculate_stop_loss_trigger _ _ _) as [should_trigger drop].
        destruct should_trigger; [|apply Hsel].
        destruct (close_position_default _ _ _ _) as [[w2 evs] [result|e]].
        -- destruct (report_success result); apply Hsel.
        -- match goal with
           | |- context [handle cfg ?st ?ww ?pre ?ee] =>
               destruct (handle_keeps_tracking cfg st ww pre ee) as [_ ->]
           end.
           apply (Hsel 0 None).
      * destruct (current_position_id s); cbn; [discriminate | apply IH].
  - destruct (handle_keeps_tracking cfg s w1 [] e) as [_ ->]. apply IH.
Qed.

(** X10. With a threshold above 100 percent the loop never enters the
    executor and never submits an order: a position it selects has a
    positive current price, so its loss is not over 100 percent. *)
Theorem never_sells_above_100 (s : LoopState) (w : W) :
  (100 < stop_loss_pct cfg)%Q ->
  count is_closing (emitted (cycle venue cfg s w)) = 0
  /\ orders (emitted (cycle venue cfg s w)) = [].
Proof.
  intros Hpct. unfold cycle.
  destruct (get_positions venue w) as [w1 [positions|e]].
  - destruct positions as [|p rest].
    + destruct (current_position_id s); cbn [emitted]; [|split; reflexivity].
      rewrite count_app, orders_app.
      destruct (tracked_position s); split; reflexivity.
    + destruct (find_active (p :: rest)) as [pos|] eqn:Hfind.
      * apply find_active_is_valid in Hfind.
        pose proof (valid_drop_below_threshold pos (stop_loss_pct cfg) Hfind Hpct) as Hno.
        destruct (calculate_stop_loss_trigger _ _ _) as [should_trigger drop].
        cbn in Hno. subst should_trigger. cbn [emitted].
        rewrite count_app, orders_app.
        destruct (differs (pos_asset pos) (current_position_id s)); split; reflexivity.
      * destruct (current_position_id s); cbn [emitted]; [|split; reflexivity].
        rewrite count_app, orders_app.
        destruct (tracked_position s); split; reflexivity.
  - split; [|apply handle_orders].
    destruct (handle_emitted cfg s w1 [] e) as (post & -> & Hc & _). exact Hc.
Qed.


End MonitorInvariants.

Lemma fetch_failure_frame_witness :
  consecutive_errors (next_state (cycle offline_venue cfg10 initial_state tt)) = 1.
Proof.
  apply (fetch_failure_frame offline_venue cfg10 initial_state tt tt
           (mkExn RequestException "connection refused")).
  reflexivity.
Defined.

Lemma never_sells_above_100_witness :
  orders (emitted (cycle quiet_venue (mkConfig 101 30) initial_state tt)) = [].
Proof.
  apply (never_sells_above_100 quiet_venue (mkConfig 101 30) initial_state tt).
  reflexivity.
Defined.


(** ** Notifications *)

Section NotificationFacts.
Context {W : Type}.
Variable py_int : string -> option Z.
Variable requests_post : string -> Z -> string -> W -> W * PostResult.
Variable fmt : nat -> Q -> string.

Lemma send_telegram_disabled (tg : Telegram) (message : string) (w : W) :
  truthy (dict_get_or (telegram_config tg) "enabled" (PBool true)) = false ->
  send_telegram py_int requests_post tg message w = (w, [], Returns false).
Proof. intros H. unfold send_telegram. rewrite H. reflexivity. Qed.

(** X12. [send_telegram] stays silent, returning [False] without any HTTP
    request, when notifications are disabled, when the bot token or the chat
    id is unset or empty, or when the chat id is not an integer. *)
Theorem send_telegram_silent (tg : Telegram) (message : string) (w : W) :
  truthy (dict_get_or (telegram_config tg) "enabled" (PBool true)) = false
  \/ env_set (TELEGRAM_BOT_TOKEN tg) = false
  \/ env_set (TELEGRAM_CHAT_ID tg) = false
  \/ py_int (default "" (TELEGRAM_CHAT_ID tg)) = None ->
  send_telegram py_int requests_post tg message w = (w, [], Returns false).
Proof.
  intros H. unfold send_telegram.
  destruct (truthy (dict_get_or (telegram_config tg) "enabled" (PBool true)));
    [|reflexivity].
  destruct (env_set (TELEGRAM_BOT_TOKEN tg)); [|reflexivity].
  destruct (env_set (TELEGRAM_CHAT_ID tg)); [|reflexivity].
  cbn. destruct H as [H | [H | [H | H]]]; try discriminate.
  rewrite H. reflexivity.
Qed.

(** X13. [send_telegram] makes at most one HTTP request; it returns [True]
    exactly when that request was made and answered with an ok response; a
    request error or a [ValueError] gives [False]; it raises only what the
    request raised outside those two classes. *)
Theorem send_telegram_outcome (tg : Telegram) (message : string) (w : W) :
  let r := send_telegram py_int requests_post tg message w in
  length r.1.2 <= 1
  /\ (r.2 = Returns true
      <-> exists url chat_id text,
            r.1.2 = [EvHttpPost url chat_id message]
            /\ (requests_post url chat_id message w).2 = PostResponse true text)
  /\ (forall e, r.2 = Raises e ->
        exists url chat_id,
          r.1.2 = [EvHttpPost url chat_id message]
          /\ (requests_post url chat_id message w).2 = PostOtherError e).
Proof.
  cbv zeta. unfold send_telegram.
  destruct (negb (truthy (dict_get_or (telegram_config tg) "enabled" (PBool true)))).
  { cbn. split; [lia|]. split; [split; [discriminate|]|discriminate].
    intros (? & ? & ? & H & _). discriminate. }
  destruct (negb (env_set (TELEGRAM_BOT_TOKEN tg))
            || negb (env_set (TELEGRAM_CHAT_ID tg))).
  { cbn. split; [lia|]. split; [split; [discriminate|]|discriminate].
    intros (? & ? & ? & H & _). discriminate. }
  destruct (py_int (default "" (TELEGRAM_CHAT_ID tg))) as [chat_id|].
  2:{ cbn. split; [lia|]. split; [split; [discriminate|]|discriminate].
      intros (? & ? & ? & H & _). discriminate. }
  set (url := TELEGRAM_API_URL (default "" (TELEGRAM_BOT_TOKEN tg))).
  destruct (requests_post url chat_id message w) as [w1 res] eqn:Hpost.
  destruct res as [ok text|msg|msg|e]; cbn; (split; [lia|]); split.
  - split.
    + intros [= ->]. exists url, chat_id, text. rewrite Hpost. split; reflexivity.
    + intros (url' & chat' & text' & [= <- <-] & Hres). rewrite Hpost in Hres.
      cbn in Hres. injection Hres as -> _. reflexivity.
  - discriminate.
  - split; [discriminate|].
    intros (url' & chat' & text' & [= <- <-] & Hres). rewrite Hpost in Hres.
    discriminate.
  - discriminate.
  - split; [discriminate|].
    intros (url' & chat' & text' & [= <- <-] & Hres). rewrite Hpost in Hres.
    discriminate.
  - discriminate.
  - split; [discriminate|].
    intros (url' & chat' & text' & [= <- <-] & Hres). rewrite Hpost in Hres.
    discriminate.
  - intros e' [= <-]. exists url, chat_id. rewrite Hpost. split; reflexivity.
Qed.

(** [notify_error] sends nothing when the [notify_on_error] toggle is
    off, and nothing either when notifications as a whole are disabled. *)
Lemma notify_error_gated (tg : Telegram) (error_message : string) (w : W) :
  truthy (dict_get_or (telegram_config tg) "notify_on_error" (PBool true)) = false
  \/ truthy (dict_get_or (telegram_config tg) "enabled" (PBool true)) = false ->
  notify_error py_int requests_post tg error_message w = (w, [], Returns tt).
Proof.
  intros H. unfold notify_error.
  destruct (truthy (dict_get_or (telegram_config tg) "notify_on_error" (PBool true)));
    [|reflexivity].
  destruct H as [H | H]; [discriminate|].
  rewrite send_telegram_disabled by exact H. reflexivity.
Qed.

End NotificationFacts.

Lemma send_telegram_silent_witness :
  send_telegram int_42 accepting_post telegram_off "hello" tt = (tt, [], Returns false).
Proof.
  apply (send_telegram_silent int_42 accepting_post telegram_off "hello" tt).
  left. reflexivity.
Defined.

Example send_telegram_delivers :
  send_telegram int_42 accepting_post telegram_on "hello" tt
  = (tt, [EvHttpPost "https://api.telegram.org/bot123:abc/sendMessage" 42 "hello"],
     Returns true).
Proof. reflexivity. Qed.

Lemma notify_error_gated_witness :
  notify_error int_42 accepting_post telegram_off "boom" tt = (tt, [], Returns tt).
Proof.
  apply (notify_error_gated int_42 accepting_post telegram_off "boom" tt).
  right. reflexivity.
Defined.

(** X14. The label of a closed position with a positive entry price: WON
    exactly at a last price of 1 or more, LOST exactly at 0 or less, and in
    between PROFIT when the last price is at least the entry price and
    CLOSED when it is below. *)
Theorem closed_result_partition (entry_price last_price : Q) :
  (0 < entry_price)%Q ->
  let result := (closed_status last_price (pnl_pct entry_price last_price)).2 in
  (result = "WON" <-> (1 <= last_price)%Q)
  /\ (result = "LOST" <-> (last_price <= 0)%Q)
  /\ (result = "PROFIT"
      <-> (0 < last_price)%Q /\ (last_price < 1)%Q /\ (entry_price <= last_price)%Q)
  /\ (result = "CLOSED"
      <-> (0 < last_price)%Q /\ (last_price < 1)%Q /\ (last_price < entry_price)%Q).
Proof.
  intros Hentry. cbv zeta. unfold closed_status, pnl_pct.
  pose proof Hentry as Hb. apply Qgt_bool_true in Hb. rewrite Hb.
  assert (Hinv : (0 < / entry_price)%Q) by (apply Qinv_lt_0_compat; exact Hentry).
  assert (Hpnl : (0 <= (last_price - entry_price) / entry_price * 100)%Q
                 <-> (entry_price <= last_price)%Q).
  { unfold Qdiv. set (k := (/ entry_price)%Q) in *. split; intros H; nra. }
  destruct (Qle_bool 1 last_price) eqn:H1.
  { apply Qle_bool_iff in H1. cbn.
    repeat split; try discriminate; try (intros; assumption); intros; lra. }
  apply Qle_bool_false in H1.
  destruct (Qle_bool last_price 0) eqn:H0.
  { apply Qle_bool_iff in H0. cbn.
    repeat split; try discriminate; try (intros; assumption); intros; lra. }
  apply Qle_bool_false in H0.
  destruct (Qle_bool 0 ((last_price - entry_price) / entry_price * 100)) eqn:Hp.
  - apply Qle_bool_iff, Hpnl in Hp. cbn.
    repeat split; try discriminate; try (intros; assumption); intros; lra.
  - apply Qle_bool_false in Hp.
    assert (Hlt : (last_price < entry_price)%Q).
    { apply Qnot_le_lt. intros Hle. apply Hpnl in Hle. lra. }
    cbn. repeat split; try discriminate; try (intros; assumption); intros; lra.
Qed.

Lemma closed_result_partition_witness :
  (closed_status (1 # 2) (pnl_pct (1 # 2) (1 # 2))).2 = "PROFIT".
Proof.
  apply (closed_result_partition (1 # 2) (1 # 2)); [reflexivity|].
  repeat split; discriminate.
Defined.

(** X15. For a positive entry price, the P/L percentage of the
    position-closed notification is the negated loss percentage of the
    trigger calculator, and it is shown with a plus sign exactly when the
    last price is not below the entry price. *)
Theorem pnl_is_negated_drop (entry_price last_price stop_loss_pct : Q) :
  (0 < entry_price)%Q ->
  (pnl_pct entry_price last_price
   == - (calculate_stop_loss_trigger entry_price last_price stop_loss_pct).2)%Q
  /\ (pnl_sign (pnl_pct entry_price last_price) = "+"
      <-> (entry_price <= last_price)%Q).
Proof.
  intros Hentry. unfold pnl_pct, pnl_sign, calculate_stop_loss_trigger.
  pose proof Hentry as Hb. apply Qgt_bool_true in Hb. rewrite Hb.
  pose proof Hentry as Hc. apply Qle_bool_false in Hc. rewrite Hc. cbn [snd].
  assert (Hinv : (0 < / entry_price)%Q) by (apply Qinv_lt_0_compat; exact Hentry).
  split.
  - unfold Qdiv. ring.
  - assert (Hpnl : (0 <= (last_price - entry_price) / entry_price * 100)%Q
                   <-> (entry_price <= last_price)%Q).
    { unfold Qdiv. set (k := (/ entry_price)%Q) in *. split; intros H; nra. }
    rewrite <- Hpnl, <- Qle_bool_iff.
    destruct (Qle_bool 0 ((last_price - entry_price) / entry_price * 100));
      split; try reflexivity; discriminate.
Qed.

Lemma pnl_is_negated_drop_witness :
  pnl_sign (pnl_pct (1 # 2) (3 # 4)) = "+".
Proof.
  apply (pnl_is_negated_drop (1 # 2) (3 # 4) 10); [reflexivity | discriminate].
Defined.

(** ** Configuration *)

(** What [deep_merge] holds under a key. *)
Lemma deep_merge_lookup_law (base override : gmap string Cfg) (k : string) :
  deep_merge base override !! k
  = match override !! k with
    | None => base !! k
    | Some v => Some (merge_into (base !! k) v)
    end.
Proof.
  unfold deep_merge. revert k.
  apply (map_fold_weak_ind
           (fun r m => forall k,
                r !! k = match m !! k with
                         | None => base !! k
                         | Some v => Some (merge_into (base !! k) v)
                         end)).
  - intros k. rewrite lookup_empty. reflexivity.
  - intros i x m r Hi IH k. destruct (decide (i = k)) as [->|Hne].
    + rewrite !lookup_insert_eq. rewrite IH, Hi. reflexivity.
    + rewrite !lookup_insert_ne by done. apply IH.
Qed.

(** X16. The result of [deep_merge] has exactly the keys of base and
    override together.  Under a key the override does not have it holds what
    the base has; under a key the override has it holds the merge of the two
    values when both are dictionaries and the override's value otherwise.
    Merging an empty override changes nothing. *)
Theorem deep_merge_law (base override : gmap string Cfg) :
  (forall k,
     deep_merge base override !! k
     = match override !! k with
       | None => base !! k
       | Some (CDict mo) =>
           match base !! k with
           | Some (CDict mb) => Some (CDict (deep_merge mb mo))
           | _ => Some (CDict mo)
           end
       | Some (CLeaf v) => Some (CLeaf v)
       end)
  /\ dom (deep_merge base override) = dom base ∪ dom override
  /\ deep_merge base ∅ = base.
Proof.
  split; [|split].
  - intros k. rewrite deep_merge_lookup_law.
    destruct (override !! k) as [[v|mo]|]; [| |reflexivity].
    + destruct (base !! k) as [[|]|]; reflexivity.
    + destruct (base !! k) as [[|]|]; reflexivity.
  - apply set_eq. intros k.
    rewrite elem_of_union, !elem_of_dom, deep_merge_lookup_law.
    destruct (override !! k) as [v|]; split.
    + intros _. right. eexists. reflexivity.
    + intros _. eexists. reflexivity.
    + intros H. left. exact H.
    + intros [H | [v Hv]]; [exact H | discriminate].
  - apply map_eq. intros k. rewrite deep_merge_lookup_law, lookup_empty.
    reflexivity.
Qed.

(** X17. A section given only in part keeps the rest: when base and override
    both hold a dictionary under [section], every key that the override's
    dictionary does not mention keeps the base's value, and every key it
    gives a scalar for takes that scalar. *)
Theorem deep_merge_keeps_siblings (base override mb mo : gmap string Cfg)
    (section : string) :
  base !! section = Some (CDict mb) ->
  override !! section = Some (CDict mo) ->
  exists m,
    deep_merge base override !! section = Some (CDict m)
    /\ (forall key, mo !! key = None -> m !! key = mb !! key)
    /\ (forall key v, mo !! key = Some (CLeaf v) -> m !! key = Some (CLeaf v)).
Proof.
  intros Hb Ho. exists (deep_merge mb mo). split; [|split].
  - rewrite deep_merge_lookup_law, Ho, Hb. reflexivity.
  - intros key Hkey. rewrite deep_merge_lookup_law, Hkey. reflexivity.
  - intros key v Hkey. rewrite deep_merge_lookup_law, Hkey.
    destruct (mb !! key) as [[|]|]; reflexivity.
Qed.

Lemma deep_merge_keeps_siblings_witness :
  exists m,
    deep_merge default_config
               (<["stop_loss" := CDict (<["percentage" := CLeaf (SFloat 5)]> ∅)]> ∅)
    !! "stop_loss" = Some (CDict m)
    /\ m !! "min_position_size" = Some (CLeaf (SFloat 1))
    /\ m !! "percentage" = Some (CLeaf (SFloat 5)).
Proof.
  destruct (deep_merge_keeps_siblings default_config
              (<["stop_loss" := CDict (<["percentage" := CLeaf (SFloat 5)]> ∅)]> ∅)
              (<["percentage" := CLeaf (SFloat 10)]>
                 (<["min_position_size" := CLeaf (SFloat 1)]> ∅))
              (<["percentage" := CLeaf (SFloat 5)]> ∅)
              "stop_loss") as (m & Hm & Hkeep & Htake);
    [reflexivity | reflexivity |].
  exists m. split; [exact Hm | split].
  - rewrite (Hkeep "min_position_size") by reflexivity. reflexivity.
  - apply (Htake "percentage" (SFloat 5)). reflexivity.
Defined.

Lemma lookup_dict_truthy {A : Type} (d : gmap string A) (k : string) (v : A) :
  d !! k = Some v -> dict_truthy d = true.
Proof.
  intros Hk. unfold dict_truthy. apply negb_true_iff, Nat.eqb_neq.
  intros Hsize. apply map_size_empty_iff in Hsize. subst d.
  rewrite lookup_empty in Hk. discriminate.
Qed.

Section LoadConfigFacts.
Variable py_int : string -> option Z.

(** What an environment override leaves under the other keys. *)
Lemma override_monitoring_other (key : string) (value : option string)
    (config config' : gmap string Cfg) (k : string) :
  override_monitoring py_int key value config = Returns config' ->
  k <> "monitoring" -> config' !! k = config !! k.
Proof.
  unfold override_monitoring. intros H Hk.
  destruct (env_set value); [|injection H as <-; reflexivity].
  destruct (py_int (default "" value)); [|discriminate].
  destruct (config !! "monitoring") as [[|m]|]; try discriminate.
  injection H as <-. rewrite lookup_insert_ne by congruence. reflexivity.
Qed.

(** What an environment override does to the monitoring section. *)
Lemma override_monitoring_section (key : string) (value : option string)
    (config config' : gmap string Cfg) :
  override_monitoring py_int key value config = Returns config' ->
  if env_set value
  then exists n m,
         py_int (default "" value) = Some n
         /\ config !! "monitoring" = Some (CDict m)
         /\ config' !! "monitoring" = Some (CDict (<[key := CLeaf (SInt n)]> m))
  else config' = config.
Proof.
  unfold override_monitoring. intros H.
  destruct (env_set value); [|injection H as <-; reflexivity].
  destruct (py_int (default "" value)) as [n|]; [|discriminate].
  destruct (config !! "monitoring") as [[|m]|] eqn:Hm; try discriminate.
  injection H as <-. exists n, m. rewrite lookup_insert_eq. auto.
Qed.

Lemma merged_config_default_keys (file : option (Outcome Cfg))
    (config : gmap string Cfg) (k : string) :
  merged_config file = Returns config ->
  is_Some (default_config !! k) -> is_Some (config !! k).
Proof.
  unfold merged_config. intros H Hk.
  destruct file as [[yaml|e]|]; [| discriminate | injection H as <-; exact Hk].
  destruct (cfg_truthy yaml).
  - destruct yaml as [v|m]; [discriminate|]. injection H as <-.
    rewrite deep_merge_lookup_law. destruct (m !! k); [eexists; reflexivity | exact Hk].
  - injection H as <-. rewrite deep_merge_lookup_law, lookup_empty. exact Hk.
Qed.

(** X18. [load_config] loads once: a call that finds the cache empty and
    succeeds stores what it returns, and every later call returns that same
    configuration, whatever the file and the environment have become.  A
    call that raises leaves the cache as it was. *)
Theorem load_config_caches (source source' : ConfigSource)
    (cache cache' : gmap string Cfg) (out : Outcome (gmap string Cfg)) :
  load_config py_int cache source = (cache', out) ->
  match out with
  | Returns config =>
      cache' = config
      /\ load_config py_int cache' source' = (config, Returns config)
  | Raises _ => cache' = cache
  end.
Proof.
  unfold load_config at 1.
  destruct (dict_truthy cache) eqn:Hcache.
  { intros [= <- <-]. split; [reflexivity|].
    unfold load_config. rewrite Hcache. reflexivity. }
  destruct (merged_config (config_file source)) as [config|e] eqn:Hmerged;
    [|intros [= <- <-]; reflexivity].
  destruct (override_monitoring py_int "position_poll_interval_ms" _ config)
    as [config1|e] eqn:H1; [|intros [= <- <-]; reflexivity].
  destruct (override_monitoring py_int "price_poll_interval_ms" _ config1)
    as [config2|e] eqn:H2; [|intros [= <- <-]; reflexivity].
  intros [= <- <-]. split; [reflexivity|].
  assert (Hkey : is_Some (config2 !! "stop_loss")).
  { rewrite (override_monitoring_other _ _ _ _ "stop_loss" H2) by discriminate.
    rewrite (override_monitoring_other _ _ _ _ "stop_loss" H1) by discriminate.
    apply (merged_config_default_keys _ _ _ Hmerged). eexists. reflexivity. }
  destruct Hkey as [v Hv]. unfold load_config.
  rewrite (lookup_dict_truthy _ _ _ Hv). reflexivity.
Qed.

(** X19. An environment override wins: after a successful first load with
    [POSITION_POLL_INTERVAL_MS] set, that variable is an integer and the
    configuration holds it as the position poll interval, whatever the file
    says. *)
Theorem env_override_wins (source : ConfigSource) (cache' config : gmap string Cfg) :
  load_config py_int ∅ source = (cache', Returns config) ->
  env_set (POSITION_POLL_INTERVAL_MS source) = true ->
  exists n,
    py_int (default "" (POSITION_POLL_INTERVAL_MS source)) = Some n
    /\ cfg_get config "monitoring" "position_poll_interval_ms" = Some (CLeaf (SInt n)).
Proof.
  unfold load_config. cbn [dict_truthy].
  change (dict_truthy (∅ : gmap string Cfg)) with false. cbv iota.
  destruct (merged_config (config_file source)) as [config0|e]; [|discriminate].
  destruct (override_monitoring py_int "position_poll_interval_ms" _ config0)
    as [config1|e] eqn:H1; [|discriminate].
  destruct (override_monitoring py_int "price_poll_interval_ms" _ config1)
    as [config2|e] eqn:H2; [|discriminate].
  intros [= _ <-] Hset.
  apply override_monitoring_section in H1. rewrite Hset in H1.
  destruct H1 as (n & m & Hint & _ & Hm1).
  exists n. split; [exact Hint|].
  apply override_monitoring_section in H2. unfold cfg_get.
  destruct (env_set (PRICE_POLL_INTERVAL_MS source)).
  - destruct H2 as (n2 & m2 & _ & Hm2 & ->). rewrite Hm1 in Hm2.
    injection Hm2 as <-. rewrite lookup_insert_ne by discriminate.
    apply lookup_insert_eq.
  - subst config2. rewrite Hm1. apply lookup_insert_eq.
Qed.

(** X20. What the file does not mention keeps its default: after a
    successful first load, every top-level key other than [monitoring] that
    the file's dictionary does not have holds the default value. *)
Theorem unmentioned_keeps_default (source : ConfigSource)
    (cache' config yaml : gmap string Cfg) (k : string) :
  load_config py_int ∅ source = (cache', Returns config) ->
  config_file source = Some (Returns (CDict yaml)) ->
  yaml !! k = None ->
  k <> "monitoring" ->
  config !! k = default_config !! k.
Proof.
  unfold load_config.
  change (dict_truthy (∅ : gmap string Cfg)) with false. cbv iota.
  intros Hload Hfile Hk Hne. rewrite Hfile in Hload.
  destruct (merged_config (Some (Returns (CDict yaml)))) as [config0|e] eqn:Hmerged;
    [|discriminate].
  destruct (override_monitoring py_int "position_poll_interval_ms" _ config0)
    as [config1|e] eqn:H1; [|discriminate].
  destruct (override_monitoring py_int "price_poll_interval_ms" _ config1)
    as [config2|e] eqn:H2; [|discriminate].
  injection Hload as _ <-.
  rewrite (override_monitoring_other _ _ _ _ k H2 Hne).
  rewrite (override_monitoring_other _ _ _ _ k H1 Hne).
  unfold merged_config in Hmerged.
  destruct (cfg_truthy (CDict yaml)); injection Hmerged as <-;
    rewrite deep_merge_lookup_law, ?Hk, ?lookup_empty; reflexivity.
Qed.

End LoadConfigFacts.

Lemma load_config_caches_witness :
  load_config int_42 default_config (mkSource None (Some "x") None)
  = (default_config, Returns default_config).
Proof.
  apply (load_config_caches int_42 (mkSource None None None)
           (mkSource None (Some "x") None) ∅ default_config (Returns default_config)).
  reflexivity.
Defined.

Lemma env_override_wins_witness :
  exists n,
    int_42 "42" = Some n
    /\ cfg_get (load_config int_42 ∅ (mkSource None (Some "42") None)).1
               "monitoring" "position_poll_interval_ms" = Some (CLeaf (SInt n)).
Proof.
  apply (env_override_wins int_42 (mkSource None (Some "42") None)
           (load_config int_42 ∅ (mkSource None (Some "42") None)).1
           (load_config int_42 ∅ (mkSource None (Some "42") None)).1);
    reflexivity.
Defined.

Lemma unmentioned_keeps_default_witness :
  (load_config int_42 ∅ (mkSource (Some (Returns yaml_percentage_5)) None None)).1
  !! "telegram" = default_config !! "telegram".
Proof.
  apply (unmentioned_keeps_default int_42
           (mkSource (Some (Returns yaml_percentage_5)) None None)
           (load_config int_42 ∅
              (mkSource (Some (Returns yaml_percentage_5)) None None)).1
           (load_config int_42 ∅
              (mkSource (Some (Returns yaml_percentage_5)) None None)).1
           (<["stop_loss" := CDict (<["percentage" := CLeaf (SFloat 5)]> ∅)]> ∅)
           "telegram").
  - reflexivity.
  - reflexivity.
  - reflexivity.
  - discriminate.
Defined.

(** ** The trading client cache *)

Lemma substring_all (s : string) : String.substring 0 (String.length s) s = s.
Proof. induction s as [|c s IH]; cbn; [reflexivity | rewrite IH; reflexivity]. Qed.

Lemma strip_0x_prefixed (rest : string) : Trading.strip_0x ("0x" +:+ rest) = rest.
Proof.
  unfold Trading.strip_0x.
  change ("0x" +:+ rest) with (String "0" (String "x" rest)).
  cbn. rewrite Nat.sub_0_r.
  destruct rest as [|c rest]; [reflexivity|].
  cbn. rewrite substring_all. reflexivity.
Qed.

Module TradingFacts.
Import Trading.

Section ClientFacts.
Context {W : Type}.
Variable create_or_derive_api_creds : string -> Z -> string -> W -> W * Outcome string.

(** X21. A forced [get_clob_client] that returns has built a client of the
    requested signature type, with one leading "0x" taken off the private
    key, after exactly one credential derivation, and has cached it; from
    then on an unforced call returns that very client without touching the
    venue, whatever signature type it asks for. *)
Theorem forced_client_is_cached (cache cache1 : option ClobClient)
    (environ : gmap string string) (signature_type : Z) (w w1 : W)
    (evs : list Event) (client : ClobClient) :
  get_clob_client create_or_derive_api_creds cache environ true signature_type w
  = (cache1, w1, evs, Returns client) ->
  client_signature_type client = signature_type
  /\ cache1 = Some client
  /\ evs = [EvDeriveCreds signature_type]
  /\ (forall rest, environ !! "POLYMARKET_WALLET_PRIVATE_KEY" = Some ("0x" +:+ rest) ->
        client_key client = rest)
  /\ (forall environ' other_type w',
        get_clob_client create_or_derive_api_creds cache1 environ' false other_type w'
        = (cache1, w', [], Returns client)).
Proof.
  unfold get_clob_client at 1.
  assert (Hbuild :
    match get_env environ "POLYMARKET_WALLET_PRIVATE_KEY" true with
    | Raises e => (cache, w, [], Raises e)
    | Returns private_key =>
      match get_env environ "POLYMARKET_FUNDER_ADDRESS" true with
      | Raises e => (cache, w, [], Raises e)
      | Returns funder =>
        match create_or_derive_api_creds (strip_0x (default "" private_key))
                signature_type (default "" funder) w with
        | (w1, Raises e) => (cache, w1, [EvDeriveCreds signature_type], Raises e)
        | (w1, Returns creds) =>
          (Some (mkClobClient CLOB_HOST (strip_0x (default "" private_key)) CHAIN_ID
                              signature_type (default "" funder) creds),
           w1, [EvDeriveCreds signature_type],
           Returns (mkClobClient CLOB_HOST (strip_0x (default "" private_key))
                                 CHAIN_ID signature_type (default "" funder) creds))
        end
      end
    end = (cache1, w1, evs, Returns client) ->
    client_signature_type client = signature_type
    /\ cache1 = Some client
    /\ evs = [EvDeriveCreds signature_type]
    /\ (forall rest,
          environ !! "POLYMARKET_WALLET_PRIVATE_KEY" = Some ("0x" +:+ rest) ->
          client_key client = rest)).
  { unfold get_env.
    destruct (env_set (environ !! "POLYMARKET_WALLET_PRIVATE_KEY"));
      cbn [andb negb]; [|discriminate].
    destruct (env_set (environ !! "POLYMARKET_FUNDER_ADDRESS"));
      cbn [andb negb]; [|discriminate].
    destruct (create_or_derive_api_creds _ _ _ _) as [w2 [creds|e]]; [|discriminate].
    intros [= <- <- <- <-]. cbn. repeat split.
    intros rest Hrest. rewrite Hrest. apply strip_0x_prefixed. }
  intros Hcall.
  assert (Hfacts : client_signature_type client = signature_type
                   /\ cache1 = Some client
                   /\ evs = [EvDeriveCreds signature_type]
                   /\ (forall rest,
                         environ !! "POLYMARKET_WALLET_PRIVATE_KEY"
                         = Some ("0x" +:+ rest) ->
                         client_key client = rest)).
  { destruct cache; apply Hbuild; exact Hcall. }
  destruct Hfacts as (Hsig & Hcache & Hevs & Hkey).
  repeat split; try assumption.
  intros environ' other_type w'. rewrite Hcache. reflexivity.
Qed.

(** X22. A [get_clob_client] that raises leaves the cache as it was.  And
    whenever a client has to be built (nothing is cached, or a new one is
    forced) while [POLYMARKET_WALLET_PRIVATE_KEY] or
    [POLYMARKET_FUNDER_ADDRESS] is unset or empty, the call does raise,
    naming one of the two variables, before any venue call is made. *)
Theorem failed_client_keeps_cache (cache : option ClobClient)
    (environ : gmap string string) (force_new : bool) (signature_type : Z) (w : W) :
  (forall cache1 w1 evs e,
     get_clob_client create_or_derive_api_creds cache environ force_new signature_type w
     = (cache1, w1, evs, Raises e) ->
     cache1 = cache)
  /\ (cache = None \/ force_new = true ->
      env_set (environ !! "POLYMARKET_WALLET_PRIVATE_KEY") = false
      \/ env_set (environ !! "POLYMARKET_FUNDER_ADDRESS") = false ->
      exists key,
        (key = "POLYMARKET_WALLET_PRIVATE_KEY" \/ key = "POLYMARKET_FUNDER_ADDRESS")
        /\ get_clob_client create_or_derive_api_creds cache environ force_new
                           signature_type w
           = (cache, w, [],
              Raises (mkExn OtherException
                        ("Required environment variable " +:+ key +:+ " is not set")))).
Proof.
  unfold get_clob_client, get_env.
  set (build :=
    match
      (if true && negb (env_set (environ !! "POLYMARKET_WALLET_PRIVATE_KEY"))
       then Raises (mkExn OtherException
                      ("Required environment variable "
                       +:+ "POLYMARKET_WALLET_PRIVATE_KEY" +:+ " is not set"))
       else Returns (environ !! "POLYMARKET_WALLET_PRIVATE_KEY"))
    with
    | Raises e0 => (cache, w, [], Raises e0)
    | Returns private_key =>
      match
        (if true && negb (env_set (environ !! "POLYMARKET_FUNDER_ADDRESS"))
         then Raises (mkExn OtherException
                        ("Required environment variable "
                         +:+ "POLYMARKET_FUNDER_ADDRESS" +:+ " is not set"))
         else Returns (environ !! "POLYMARKET_FUNDER_ADDRESS"))
      with
      | Raises e0 => (cache, w, [], Raises e0)
      | Returns funder =>
        match create_or_derive_api_creds (strip_0x (default "" private_key))
                signature_type (default "" funder) w with
        | (w2, Raises e0) => (cache, w2, [EvDeriveCreds signature_type], Raises e0)
        | (w2, Returns creds) =>
          (Some (mkClobClient CLOB_HOST (strip_0x (default "" private_key)) CHAIN_ID
                              signature_type (default "" funder) creds),
           w2, [EvDeriveCreds signature_type],
           Returns (mkClobClient CLOB_HOST (strip_0x (default "" private_key))
                                 CHAIN_ID signature_type (default "" funder) creds))
        end
      end
    end).
  assert (Hkeep : forall cache1 w1 evs e,
            build = (cache1, w1, evs, Raises e) -> cache1 = cache).
  { intros cache1 w1 evs e. unfold build.
    destruct (env_set (environ !! "POLYMARKET_WALLET_PRIVATE_KEY")); cbn [andb negb].
    2:{ intros [= <- _ _ _]. reflexivity. }
    destruct (env_set (environ !! "POLYMARKET_FUNDER_ADDRESS")); cbn [andb negb].
    2:{ intros [= <- _ _ _]. reflexivity. }
    destruct (create_or_derive_api_creds _ _ _ _) as [w2 [creds|e0]]; [discriminate|].
    intros [= <- _ _ _]. reflexivity. }
  assert (Hraise :
            env_set (environ !! "POLYMARKET_WALLET_PRIVATE_KEY") = false
            \/ env_set (environ !! "POLYMARKET_FUNDER_ADDRESS") = false ->
            exists key,
              (key = "POLYMARKET_WALLET_PRIVATE_KEY" \/ key = "POLYMARKET_FUNDER_ADDRESS")
              /\ build
                 = (cache, w, [],
                    Raises (mkExn OtherException
                              ("Required environment variable " +:+ key
                               +:+ " is not set")))).
  { intros Hunset. unfold build.
    destruct (env_set (environ !! "POLYMARKET_WALLET_PRIVATE_KEY")); cbn [andb negb].
    2:{ eexists. split; [left; reflexivity | reflexivity]. }
    destruct (env_set (environ !! "POLYMARKET_FUNDER_ADDRESS")); cbn [andb negb].
    2:{ eexists. split; [right; reflexivity | reflexivity]. }
    destruct Hunset; discriminate. }
  split.
  - intros cache1 w1 evs e.
    destruct cache as [client|]; [destruct force_new|]; try apply Hkeep.
    discriminate.
  - intros Hbuild Hunset.
    destruct cache as [client|]; [destruct force_new|]; try exact (Hraise Hunset).
    destruct Hbuild; discriminate.
Qed.

End ClientFacts.

(** After a forced call under type 2, an unforced call under type 0, in an
    environment without credentials, still returns the type 2 client. *)
Lemma forced_client_is_cached_witness :
  get_clob_client creds_ok
    (Some (mkClobClient CLOB_HOST "abc" CHAIN_ID 2 "0xfunder" "creds")) ∅ false 0%Z tt
  = (Some (mkClobClient CLOB_HOST "abc" CHAIN_ID 2 "0xfunder" "creds"), tt, [],
     Returns (mkClobClient CLOB_HOST "abc" CHAIN_ID 2 "0xfunder" "creds")).
Proof.
  apply (forced_client_is_cached creds_ok None
           (Some (mkClobClient CLOB_HOST "abc" CHAIN_ID 2 "0xfunder" "creds"))
           environ_ok 2%Z tt tt [EvDeriveCreds 2]
           (mkClobClient CLOB_HOST "abc" CHAIN_ID 2 "0xfunder" "creds")).
  reflexivity.
Defined.

(** With an empty environment a forced call raises at the first variable,
    and nothing is cached. *)
Lemma failed_client_keeps_cache_witness :
  exists key,
    (key = "POLYMARKET_WALLET_PRIVATE_KEY" \/ key = "POLYMARKET_FUNDER_ADDRESS")
    /\ get_clob_client creds_ok None ∅ true 2%Z tt
       = (None, tt, [],
          Raises (mkExn OtherException
                    ("Required environment variable " +:+ key +:+ " is not set"))).
Proof.
  apply (failed_client_keeps_cache creds_ok None ∅ true 2%Z tt).
  - left. reflexivity.
  - left. reflexivity.
Defined.

End TradingFacts.

(** ** The trade ledger *)

Module DatabaseFacts.
Import Database.

(** Where [old] does not occur, nothing is replaced. *)
Lemma replace_from_absent (old new s : string) :
  contains old s = false -> replace_from old new 0 s = s.
Proof.
  induction s as [|c s IH]; [reflexivity|].
  intros Hno. cbn [contains] in Hno. apply orb_false_iff in Hno.
  destruct Hno as [Hprefix Hrest]. cbn [replace_from].
  rewrite Hprefix, (IH Hrest). reflexivity.
Qed.

(** X23. [_get_db_url] turns a [libsql://] URL whose remainder does not
    contain [libsql://] again into the [https://] URL with the same
    remainder, returns a URL that does not start with [libsql://] as it is,
    and raises when [TURSO_DATABASE_URL] is unset or empty. *)
Theorem db_url_scheme (environ : gmap string string) :
  (forall rest,
     environ !! "TURSO_DATABASE_URL" = Some ("libsql://" +:+ rest) ->
     contains "libsql://" rest = false ->
     _get_db_url environ = Returns ("https://" +:+ rest))
  /\ (forall url,
        environ !! "TURSO_DATABASE_URL" = Some url ->
        url <> "" -> String.prefix "libsql://" url = false ->
        _get_db_url environ = Returns url)
  /\ (env_set (environ !! "TURSO_DATABASE_URL") = false ->
      exists e, _get_db_url environ = Raises e).
Proof.
  unfold _get_db_url, get_env. split; [|split].
  - intros rest Hurl Hno. rewrite Hurl.
    change ("libsql://" +:+ rest)
      with (String "l" (String "i" (String "b" (String "s" (String "q"
             (String "l" (String ":" (String "/" (String "/" rest))))))))).
    cbn [env_set String.eqb Ascii.eqb Bool.eqb andb negb default].
    assert (Hp : forall s, String.prefix "" s = true) by (intros []; reflexivity).
    unfold py_replace. cbn. rewrite Hp. cbn.
    rewrite (replace_from_absent "libsql://" "https://" rest Hno). reflexivity.
  - intros url Hurl Hne Hprefix. rewrite Hurl. cbn [env_set].
    apply String.eqb_neq in Hne. rewrite Hne. cbn. rewrite Hprefix. reflexivity.
  - intros Hunset. rewrite Hunset. cbn. eexists. reflexivity.
Qed.

Lemma db_url_scheme_witness :
  _get_db_url (<["TURSO_DATABASE_URL" := "libsql://db.turso.io"]> ∅)
  = Returns "https://db.turso.io".
Proof.
  destruct (db_url_scheme (<["TURSO_DATABASE_URL" := "libsql://db.turso.io"]> ∅))
    as [Hlibsql _].
  apply (Hlibsql "db.turso.io"); reflexivity.
Defined.

Section LedgerFacts.
Context {W : Type}.
Variable execute : Statement -> W -> W * Outcome Json.

(** X24. [log_trade] is best-effort but for the table: it passes the INSERT
    alone to [_execute] when the tables are initialised, CREATE TABLE and
    then the INSERT when they are not, and CREATE TABLE alone when that
    fails.  If it raises, then either CREATE TABLE failed with that
    exception (no INSERT was tried and the tables stay uninitialised) or the
    exception is a [KeyboardInterrupt]; every other failure of the INSERT
    gives [None]; and whenever it returns, the tables are initialised. *)
Theorem log_trade_best_effort (initialized : bool) (trade : Trade) (w : W) :
  let r := log_trade execute initialized trade w in
  (r.1.2 = [InsertTrade trade] /\ initialized = true
   \/ r.1.2 = [CreateTable; InsertTrade trade] /\ initialized = false
   \/ r.1.2 = [CreateTable] /\ initialized = false)
  /\ (forall e, r.2 = Raises e ->
        (initialized = false /\ (execute CreateTable w).2 = Raises e
         /\ r.1.2 = [CreateTable] /\ r.1.1.1 = false)
        \/ exn_class e = KeyboardInterrupt)
  /\ (forall initialized1 w1 w2 sent e,
        init_tables execute initialized w = (initialized1, w1, sent, Returns tt) ->
        execute (InsertTrade trade) w1 = (w2, Raises e) ->
        exn_class e <> KeyboardInterrupt ->
        r.2 = Returns JNull)
  /\ (forall v, r.2 = Returns v -> r.1.1.1 = true).
Proof.
  cbv zeta. unfold log_trade, init_tables.
  destruct initialized.
  - destruct (execute (InsertTrade trade) w) as [w2 [result|e]] eqn:Hinsert; cbn.
    + split; [left; split; reflexivity|]. split; [discriminate|].
      split; [|reflexivity].
      intros i1 wa wb sent e [= _ <- _] He. rewrite Hinsert in He. discriminate.
    + split; [left; split; reflexivity|].
      split; [|split].
      * destruct (exn_class e) eqn:Hc; try discriminate.
        intros e' [= <-]. right. exact Hc.
      * intros i1 wa wb sent e' [= _ <- _] He Hc. rewrite Hinsert in He.
        injection He as _ <-. destruct (exn_class e); congruence.
      * destruct (exn_class e); try discriminate; reflexivity.
  - destruct (execute CreateTable w) as [w1 [created|e]] eqn:Hcreate.
    + destruct (execute (InsertTrade trade) w1) as [w2 [result|e]] eqn:Hinsert; cbn.
      * split; [right; left; split; reflexivity|].
        split; [discriminate|]. split; [|reflexivity].
        intros i1 wa wb sent e [= _ <- _] He. rewrite Hinsert in He. discriminate.
      * split; [right; left; split; reflexivity|].
        split; [|split].
        -- destruct (exn_class e) eqn:Hc; try discriminate.
           intros e' [= <-]. right. exact Hc.
        -- intros i1 wa wb sent e' [= _ <- _] He Hc. rewrite Hinsert in He.
           injection He as _ <-. destruct (exn_class e); congruence.
        -- destruct (exn_class e); try discriminate; reflexivity.
    + cbn. split; [right; right; split; reflexivity|].
      split; [|split; discriminate].
      intros e' [= <-]. left. repeat split.
Qed.

(** X25. CREATE TABLE is not tried again: once a [log_trade] call has
    returned, every later call passes exactly its INSERT to [_execute]. *)
Theorem create_table_once (initialized initialized1 : bool) (trade trade' : Trade)
    (w w1 w' : W) (sent : list Statement) (v : Json) :
  log_trade execute initialized trade w = (initialized1, w1, sent, Returns v) ->
  (log_trade execute initialized1 trade' w').1.2 = [InsertTrade trade'].
Proof.
  intros Hcall.
  assert (Hinit : initialized1 = true).
  { revert Hcall. unfold log_trade, init_tables.
    destruct initialized.
    - destruct (execute (InsertTrade trade) w) as [w2 [result|e]];
        [intros [= <- _ _ _]; reflexivity|].
      destruct (exn_class e); intros [= <- _ _]; reflexivity.
    - destruct (execute CreateTable w) as [w2 [created|e]]; [|discriminate].
      destruct (execute (InsertTrade trade) w2) as [w3 [result|e]];
        [intros [= <- _ _ _]; reflexivity|].
      destruct (exn_class e); intros [= <- _ _]; reflexivity. }
  subst initialized1. unfold log_trade, init_tables.
  destruct (execute (InsertTrade trade') w') as [w2 [result|e]]; reflexivity.
Qed.

End LedgerFacts.

Lemma create_table_once_witness :
  (log_trade store_up true trade_A tt).1.2 = [InsertTrade trade_A].
Proof.
  apply (create_table_once store_up false true trade_A trade_A tt tt tt
           [CreateTable; InsertTrade trade_A] (JNum 7)).
  reflexivity.
Defined.

(** While the store is down every attempt to log tries CREATE TABLE again
    and raises; once it is up the row id it reports is returned. *)
Example log_trade_store_down :
  log_trade store_down false trade_A tt
  = (false, tt, [CreateTable], Raises (mkExn RequestException "connection refused")).
Proof. reflexivity. Qed.

Example log_trade_store_up :
  log_trade store_up false trade_A tt
  = (true, tt, [CreateTable; InsertTrade trade_A], Returns (JNum 7)).
Proof. reflexivity. Qed.

End DatabaseFacts.

(** ** The loop and its notifications together *)

(** X26. The snapshot the loop remembers always has a positive entry price
    and a positive last price, so the position-closed notification it sends
    is never labelled LOST, even when the market resolved against the
    position, and is labelled WON only if the last price seen was 1 or
    more. *)
Theorem closed_notification_never_lost {W : Type} (venue : Venue W) (cfg : Config)
    (s : LoopState) (w : W) (t : Tracked) :
  Reachable venue cfg s w ->
  tracked_position s = Some t ->
  let result :=
    (closed_status (tp_last_price t)
                   (pnl_pct (tp_entry_price t) (tp_last_price t))).2 in
  (0 < tp_entry_price t)%Q /\ (0 < tp_last_price t)%Q
  /\ result <> "LOST"
  /\ (result = "WON" <-> (1 <= tp_last_price t)%Q).
Proof.
  intros Hreach Ht. cbv zeta.
  destruct (reachable_tracked_valid venue cfg s w t Hreach Ht) as [Hentry Hlast].
  split; [exact Hentry | split; [exact Hlast|]].
  unfold closed_status.
  destruct (Qle_bool 1 (tp_last_price t)) eqn:H1.
  { apply Qle_bool_iff in H1. cbn. split; [discriminate|]. tauto. }
  apply Qle_bool_false in H1.
  assert (H0 : Qle_bool (tp_last_price t) 0 = false) by (apply Qle_bool_false; exact Hlast).
  rewrite H0.
  destruct (Qle_bool 0 (pnl_pct (tp_entry_price t) (tp_last_price t))); cbn;
    (split; [discriminate|]); split; try discriminate; intros; lra.
Qed.

Lemma closed_notification_never_lost_witness :
  (closed_status (1 # 2) (pnl_pct (1 # 2) (1 # 2))).2 <> "LOST".
Proof.
  apply (closed_notification_never_lost scenario_venue cfg10
           (next_state (cycle scenario_venue cfg10
                          (next_state (cycle scenario_venue cfg10 initial_state 0)) 1))
           2
           (mkTracked "Market B" "NO" (1 # 2) (1 # 2) 10 "B")).
  - apply (reach_cycle scenario_venue cfg10
             (next_state (cycle scenario_venue cfg10 initial_state 0)) 1);
      [|reflexivity].
    apply (reach_cycle scenario_venue cfg10 initial_state 0); [|reflexivity].
    apply reach_start.
  - reflexivity.
Defined.

(** ** Submissions of one call *)

Section ExecutorSize.
Context {W : Type}.
Variable venue : Venue W.

(** X29. An error of a submission that does not mention an invalid signature
    never leads to a second submission, under whatever signature type: the
    call ends after its one order, with a failure result or with that same
    exception. *)
Theorem one_submission_unless_signature_error (token_id : string) (size : Q)
    (signature_type : Z) (w w1 w2 : W) (e : Exn) :
  get_clob_client venue signature_type w = (w1, None) ->
  (0 < py_round2 size)%Q ->
  submit_order venue signature_type token_id (py_round2 size) w1 = (w2, Raises e) ->
  contains "invalid signature" (lower (exn_msg e)) = false ->
  orders (close_position venue token_id size signature_type w).1.2
  = [(signature_type, token_id, py_round2 size)]
  /\ ((close_position venue token_id size signature_type w).2 = Raises e
      \/ exists msg,
           (close_position venue token_id size signature_type w).2
           = Returns (failure msg)).
Proof.
  intros Hclient Hsize Hsubmit Hmsg. apply Qle_bool_false in Hsize.
  assert (Hc : classify_error e <> InvalidSignature).
  { unfold classify_error. destruct (exn_class e); try discriminate; cbv zeta;
      rewrite Hmsg;
      destruct (contains "No orderbook exists" (exn_msg e) || contains "404" (exn_msg e));
      try discriminate;
      destruct (contains "401" (exn_msg e) || contains "Unauthorized" (exn_msg e)
                || contains "Invalid api key" (exn_msg e)); discriminate. }
  funelim (close_position venue token_id size signature_type w);
    try congruence;
    repeat match goal with
           | H1 : ?x = _, H2 : ?x = _ |- _ =>
               rewrite H1 in H2; inversion H2; subst; clear H2
           end;
    try congruence; cbn [fst snd orders];
    (split; [reflexivity|]); try (left; reflexivity); right; eexists; reflexivity.
Qed.

End ExecutorSize.

Lemma one_submission_unless_signature_error_witness :
  orders (close_position unreachable_venue "A" 10 1%Z tt).1.2
  = [(1%Z, "A", py_round2 10)].
Proof.
  apply (one_submission_unless_signature_error unreachable_venue
           "A" 10 1%Z tt tt tt (mkExn RequestException "connection refused"));
    reflexivity.
Defined.
